(** * fs.wildcard: shell-style wildcard matching

    A shallow embedding of [fs/wildcard.py]: the tokenizer that
    [PatternMatcher.__init__] runs, the per-character test of
    [_PatternMatcherToken.match], the backtracking [PatternMatcher._match]
    and the cached entry points [match] and [imatch].

    Python values are modelled as follows.
    - A [str] is a list of characters; a character is a code point below
      256 ([ascii]).  On these [c.lower()] is again one character (it
      folds A-Z and the Latin-1 capitals); nothing is said here about
      [lower()] of other code points, which may change the length.
    - An [int] is a [Z]; indexing and slicing take negative indices the
      way Python does.
    - A raised exception is a value of [result]; a computation that may
      not return carries fuel and answers [None] when it runs out.
    - The interpreter's recursion limit is modelled where it matters:
      [PatternMatcher._match] is what the method computes as long as the
      limit is not reached, [PatternMatcher._match_in] carries the
      number of frames left and raises [RecursionError] without them. *)

From Stdlib Require Import Ascii ZArith Lia Bool Arith.
From Stdlib Require Import String.
From Stdlib Require Import List.

Import ListNotations.

Local Open Scope char_scope.
Local Open Scope Z_scope.

(** ** Python strings *)

Definition str := list ascii.

(** A string literal. *)
Definition lit (s : string) : str := list_ascii_of_string s.
Arguments lit s%_string.

Definition len (s : str) : Z := Z.of_nat (List.length s).

Definition str_eqb (a b : str) : bool :=
  if list_eq_dec ascii_dec a b then true else false.

(** ** Exceptions *)

Inductive exn := ValueError | IndexError | KeyError | RecursionError.

Inductive result (A : Type) :=
| Ret (a : A)
| Raise (e : exn).
Arguments Ret {A} a.
Arguments Raise {A} e.

Definition bind {A B : Type} (m : result A) (k : A -> result B) : result B :=
  match m with
  | Ret a => k a
  | Raise e => Raise e
  end.

Notation "x <- m ;; k" := (bind m (fun x => k))
  (at level 61, m at next level, right associativity).

(** ** Indexing, slicing, searching *)

(** [s[i]]: a negative index counts from the end; out of range raises. *)
Definition getitem (s : str) (i : Z) : result ascii :=
  let k := if i <? 0 then i + len s else i in
  if (k <? 0) || (len s <=? k) then Raise IndexError
  else match nth_error s (Z.to_nat k) with
       | Some c => Ret c
       | None => Raise IndexError
       end.

(** How a slice bound is brought into [0 .. n]. *)
Definition clamp (n k : Z) : Z :=
  if k <? 0 then Z.max 0 (n + k) else Z.min n k.

(** [s[a:b]]. *)
Definition slice (s : str) (a b : Z) : str :=
  let a' := clamp (len s) a in
  let b' := clamp (len s) b in
  firstn (Z.to_nat (b' - a')) (skipn (Z.to_nat a') s).

Fixpoint index_of (c : ascii) (s : str) : option nat :=
  match s with
  | [] => None
  | x :: r =>
      if Ascii.eqb x c then Some O
      else match index_of c r with
           | Some k => Some (S k)
           | None => None
           end
  end.

(** [s.find(c, start)] for a needle of one character: the lowest index
    at or after [start], or [-1]. *)
Definition find (s : str) (c : ascii) (start : Z) : Z :=
  let a := clamp (len s) start in
  match index_of c (skipn (Z.to_nat a) s) with
  | Some k => a + Z.of_nat k
  | None => -1
  end.

(** [c in s] for a character [c]. *)
Definition contains (s : str) (c : ascii) : bool :=
  existsb (Ascii.eqb c) s.

(** ["*" * n]. *)
Definition stars (n : Z) : str := repeat "*" (Z.to_nat n).

Definition lower_char (c : ascii) : ascii :=
  let n := N_of_ascii c in
  if ((65 <=? n) && (n <=? 90))%N
     || ((192 <=? n) && (n <=? 222) && negb (n =? 215))%N
  then ascii_of_N (n + 32) else c.

(** [s.lower()], for a string of code points below 256: there it is
    [c.lower()] character by character.  The source applies it to
    strings of one character only. *)
Definition lower (s : str) : str := map lower_char s.

(** ** _PatternMatcherToken *)

Module _PatternMatcherToken.

(** A token is its [token_str].  [match_] is the method [match]: it
    answers 0 (no match), 1 (this character, once) or 2 (this character,
    and maybe more). *)
Definition match_ (token_str : str) (character : ascii)
    (case_sensitive : bool) : result Z :=
  t0 <- getitem token_str 0 ;;
  if Ascii.eqb t0 "[" then
    t1 <- getitem token_str 1 ;;
    if Ascii.eqb t1 "!" then
      let matches := slice token_str 2 (-1) in
      Ret (if contains matches character then 0 else 1)
    else
      let matches := slice token_str 1 (-1) in
      Ret (if contains matches character then 1 else 0)
  else if str_eqb token_str (lit "?") then Ret 1
  else if str_eqb token_str (lit "*") then
    Ret (if negb (Ascii.eqb character "/") then 2 else 0)
  else if str_eqb token_str (lit "**") then Ret 2
  else if case_sensitive then
    Ret (if str_eqb token_str [character] then 1 else 0)
  else
    Ret (if str_eqb (lower token_str) (lower [character]) then 1 else 0).

End _PatternMatcherToken.

(** ** PatternMatcher *)

Module PatternMatcher.

Record t := Build {
  case_sensitive : bool;
  accept_prefixes : bool;
  tokens : list str
}.

(** The inner loop that counts a run of stars starting at [i].  Its
    fuel is the length of the pattern, which it cannot use up (lemma
    [asterik_loop_exact]). *)
Fixpoint asterik_loop (fuel : nat) (pattern : str) (i asterik_len : Z)
    : result Z :=
  match fuel with
  | O => Ret asterik_len
  | S fuel' =>
      if asterik_len + i <? len pattern then
        c <- getitem pattern (asterik_len + i) ;;
        if Ascii.eqb c "*"
        then asterik_loop fuel' pattern i (asterik_len + 1)
        else Ret asterik_len
      else Ret asterik_len
  end.

(** One turn of the [while i < len(pattern)] loop, entered with
    [i < len(pattern)]: the new [i] and token list, or the exception. *)
Definition init_body (pattern : str) (i : Z) (tokens : list str)
    : result (Z * list str) :=
  c <- getitem pattern i ;;
  if Ascii.eqb c "[" then
    let start := i in
    let i := find pattern "]" i + 1 in
    Ret (i, tokens ++ [slice pattern start i])
  else if Ascii.eqb c "]" then Raise ValueError
  else if Ascii.eqb c "?" then Ret (i + 1, tokens ++ [lit "?"])
  else if Ascii.eqb c "*" then
    asterik_len <- asterik_loop (List.length pattern) pattern i 1 ;;
    if 2 <? asterik_len then Raise ValueError
    else Ret (i + asterik_len, tokens ++ [stars asterik_len])
  else Ret (i + 1, tokens ++ [[c]]).

(** The loop itself; [None] when the fuel runs out. *)
Fixpoint init_loop (fuel : nat) (pattern : str) (i : Z) (tokens : list str)
    : option (result (list str)) :=
  match fuel with
  | O => None
  | S fuel' =>
      if i <? len pattern then
        match init_body pattern i tokens with
        | Ret (i', tokens') => init_loop fuel' pattern i' tokens'
        | Raise e => Some (Raise e)
        end
      else Some (Ret tokens)
  end.

(** [PatternMatcher(pattern, case_sensitive, accept_prefixes)] run for
    [fuel] turns of the loop. *)
Definition init_fuel (fuel : nat) (pattern : str)
    (case_sensitive accept_prefixes : bool) : option (result t) :=
  match init_loop fuel pattern 0 [] with
  | Some (Ret toks) => Some (Ret (Build case_sensitive accept_prefixes toks))
  | Some (Raise e) => Some (Raise e)
  | None => None
  end.

(** The constructor.  One turn more than the pattern has characters is
    all a run that returns can take ([init_fuel_adequate]), so [None]
    here means that the constructor does not return. *)
Definition __init__ (pattern : str) (case_sensitive accept_prefixes : bool)
    : option (result t) :=
  init_fuel (S (List.length pattern)) pattern case_sensitive accept_prefixes.

(** [_match] as it runs while the interpreter's recursion limit is not
    reached ([_match_in] below carries the limit). *)
Fixpoint _match (self : t) (tokens : list str) (text : str) {struct text}
    : result bool :=
  match tokens with
  | [] => Ret (str_eqb text (lit ""))
  | token0 :: tokens_tl =>
      match text with
      | [] => Ret (accept_prefixes self)
      | text0 :: text_tl =>
          match_count <-
            _PatternMatcherToken.match_ token0 text0 (case_sensitive self) ;;
          if match_count =? 0 then Ret false
          else if match_count =? 1 then _match self tokens_tl text_tl
          else
            b <- _match self tokens_tl text_tl ;;
            if b then Ret true else _match self tokens text_tl
      end
  end.

Definition __call__ (self : t) (text : str) : result bool :=
  _match self (tokens self) text.

(** A call that enters one Python frame and goes no deeper: it raises
    [RecursionError] when no frame is left. *)
Definition in_frame {A : Type} (frames : nat) (r : result A) : result A :=
  match frames with
  | O => Raise RecursionError
  | S _ => r
  end.

(** [_match] under the recursion limit.  [frames] is the number of
    Python frames that may still be entered: entering [_match] takes
    one, the call of [tokens[0].match] needs one more while it runs, and
    each recursive call is made with one frame fewer. *)
Fixpoint _match_in (frames : nat) (self : t) (tokens : list str)
    (text : str) {struct frames} : result bool :=
  match frames with
  | O => Raise RecursionError
  | S frames' =>
      match tokens with
      | [] => Ret (str_eqb text (lit ""))
      | token0 :: tokens_tl =>
          match text with
          | [] => Ret (accept_prefixes self)
          | text0 :: text_tl =>
              match_count <-
                in_frame frames'
                  (_PatternMatcherToken.match_ token0 text0
                     (case_sensitive self)) ;;
              if match_count =? 0 then Ret false
              else if match_count =? 1
              then _match_in frames' self tokens_tl text_tl
              else
                b <- _match_in frames' self tokens_tl text_tl ;;
                if b then Ret true else _match_in frames' self tokens text_tl
          end
      end
  end.

(** [__call__] under the recursion limit, with [frames] frames left
    when the matcher is called. *)
Definition __call__in (frames : nat) (self : t) (text : str) : result bool :=
  match frames with
  | O => Raise RecursionError
  | S frames' => _match_in frames' self (tokens self) text
  end.

End PatternMatcher.


(** ** The pattern cache *)

Module LRUCache.

(** The cache key of [match] and [imatch]:
    [(pattern, case_sensitive, accept_prefix)]. *)
Definition key := (str * bool * bool)%type.

Definition key_eqb (a b : key) : bool :=
  let '(p, c, a') := a in
  let '(q, d, b') := b in
  str_eqb p q && Bool.eqb c d && Bool.eqb a' b'.

(** Modelled from the spec: the class [LRUCache] of [fs/lrucache.py],
    which [wildcard.py] imports and which is not among the sources.  A
    bounded map from keys to matchers kept in order of use, the most
    recently used entry first.  A lookup that hits moves its entry to
    the front, a lookup that misses raises [KeyError] and leaves the
    cache as it is; a store puts the entry at the front and, when the
    cache then holds more than [cache_size] entries, drops the least
    recently used one. *)
Record t := Build {
  cache_size : nat;
  entries : list (key * PatternMatcher.t)
}.

Definition new (cache_size : nat) : t := Build cache_size [].

Fixpoint lookup (k : key) (l : list (key * PatternMatcher.t))
    : option PatternMatcher.t :=
  match l with
  | [] => None
  | (k', v) :: r => if key_eqb k k' then Some v else lookup k r
  end.

Definition remove (k : key) (l : list (key * PatternMatcher.t))
    : list (key * PatternMatcher.t) :=
  filter (fun e => negb (key_eqb k (fst e))) l.

Definition __getitem__ (self : t) (k : key) : result (PatternMatcher.t * t) :=
  match lookup k (entries self) with
  | Some v =>
      Ret (v, Build (cache_size self) ((k, v) :: remove k (entries self)))
  | None => Raise KeyError
  end.

Definition __setitem__ (self : t) (k : key) (v : PatternMatcher.t) : t :=
  let l := (k, v) :: remove k (entries self) in
  Build (cache_size self)
        (if (cache_size self <? List.length l)%nat then removelast l else l).

End LRUCache.

(** ** The module's functions *)

(** [_PATTERN_CACHE = LRUCache(1000)], the state the module starts in. *)
Definition _PATTERN_CACHE : LRUCache.t := LRUCache.new 1000.

(** [match(pattern, name, accept_prefix)], with the cache threaded
    through; [None] when the constructor does not return. *)
Definition match_ (pattern name : str) (accept_prefix : bool)
    (cache : LRUCache.t) : option (result bool * LRUCache.t) :=
  let args := (pattern, true, accept_prefix) in
  match LRUCache.__getitem__ cache args with
  | Ret (pat, cache') => Some (PatternMatcher.__call__ pat name, cache')
  | Raise KeyError =>
      match PatternMatcher.__init__ pattern true accept_prefix with
      | Some (Ret pat) =>
          Some (PatternMatcher.__call__ pat name,
                LRUCache.__setitem__ cache args pat)
      | Some (Raise e) => Some (Raise e, cache)
      | None => None
      end
  | Raise e => Some (Raise e, cache)
  end.

(** [imatch(pattern, name, accept_prefix)]. *)
Definition imatch (pattern name : str) (accept_prefix : bool)
    (cache : LRUCache.t) : option (result bool * LRUCache.t) :=
  let args := (pattern, false, accept_prefix) in
  match LRUCache.__getitem__ cache args with
  | Ret (pat, cache') => Some (PatternMatcher.__call__ pat name, cache')
  | Raise KeyError =>
      match PatternMatcher.__init__ pattern false accept_prefix with
      | Some (Ret pat) =>
          Some (PatternMatcher.__call__ pat name,
                LRUCache.__setitem__ cache args pat)
      | Some (Raise e) => Some (Raise e, cache)
      | None => None
      end
  | Raise e => Some (Raise e, cache)
  end.

(** [match] and [imatch] under the recursion limit: [frames] is the
    number of frames left where [pat(name)] is called.  The lookup, the
    constructor and the store nest to a fixed depth and are taken to
    have the frames they need. *)
Definition match_in (frames : nat) (pattern name : str)
    (accept_prefix : bool) (cache : LRUCache.t)
    : option (result bool * LRUCache.t) :=
  let args := (pattern, true, accept_prefix) in
  match LRUCache.__getitem__ cache args with
  | Ret (pat, cache') =>
      Some (PatternMatcher.__call__in frames pat name, cache')
  | Raise KeyError =>
      match PatternMatcher.__init__ pattern true accept_prefix with
      | Some (Ret pat) =>
          Some (PatternMatcher.__call__in frames pat name,
                LRUCache.__setitem__ cache args pat)
      | Some (Raise e) => Some (Raise e, cache)
      | None => None
      end
  | Raise e => Some (Raise e, cache)
  end.

Definition imatch_in (frames : nat) (pattern name : str)
    (accept_prefix : bool) (cache : LRUCache.t)
    : option (result bool * LRUCache.t) :=
  let args := (pattern, false, accept_prefix) in
  match LRUCache.__getitem__ cache args with
  | Ret (pat, cache') =>
      Some (PatternMatcher.__call__in frames pat name, cache')
  | Raise KeyError =>
      match PatternMatcher.__init__ pattern false accept_prefix with
      | Some (Ret pat) =>
          Some (PatternMatcher.__call__in frames pat name,
                LRUCache.__setitem__ cache args pat)
      | Some (Raise e) => Some (Raise e, cache)
      | None => None
      end
  | Raise e => Some (Raise e, cache)
  end.

(** [any(f(x) for x in xs)] for an [f] that threads the cache: the
    elements are tried in order, the first [True] ends the iteration,
    and an exception (or a call that does not return) ends it too. *)
Fixpoint py_any {A : Type}
    (f : A -> LRUCache.t -> option (result bool * LRUCache.t))
    (xs : list A) (cache : LRUCache.t)
    : option (result bool * LRUCache.t) :=
  match xs with
  | [] => Some (Ret false, cache)
  | x :: xs' =>
      match f x cache with
      | Some (Ret b, cache') =>
          if b then Some (Ret true, cache') else py_any f xs' cache'
      | Some (Raise e, cache') => Some (Raise e, cache')
      | None => None
      end
  end.

(** [match_any(patterns, name, accept_prefix)], for a list of patterns. *)
Definition match_any (patterns : list str) (name : str)
    (accept_prefix : bool) (cache : LRUCache.t)
    : option (result bool * LRUCache.t) :=
  match patterns with
  | [] => Some (Ret true, cache)
  | _ :: _ =>
      py_any (fun pattern => match_ pattern name accept_prefix) patterns cache
  end.

(** [imatch_any(patterns, name, accept_prefix)]. *)
Definition imatch_any (patterns : list str) (name : str)
    (accept_prefix : bool) (cache : LRUCache.t)
    : option (result bool * LRUCache.t) :=
  match patterns with
  | [] => Some (Ret true, cache)
  | _ :: _ =>
      py_any (fun pattern => imatch pattern name accept_prefix) patterns cache
  end.

(** [get_matcher(patterns, case_sensitive, accept_prefix)]: the callable
    it returns, as a function of the name and the cache. *)
Definition get_matcher (patterns : list str)
    (case_sensitive accept_prefix : bool)
    : str -> LRUCache.t -> option (result bool * LRUCache.t) :=
  match patterns with
  | [] => fun name cache => Some (Ret true, cache)
  | _ :: _ =>
      if case_sensitive
      then fun name => match_any patterns name accept_prefix
      else fun name => imatch_any patterns name accept_prefix
  end.

(** The body that [match] and [imatch] have in common, for any key:
    look the matcher up, build and store it on [KeyError], call it. *)
Definition cached_match (args : LRUCache.key) (name : str)
    (cache : LRUCache.t) : option (result bool * LRUCache.t) :=
  let '(pattern, case_sensitive, accept_prefix) := args in
  match LRUCache.__getitem__ cache args with
  | Ret (pat, cache') => Some (PatternMatcher.__call__ pat name, cache')
  | Raise KeyError =>
      match PatternMatcher.__init__ pattern case_sensitive accept_prefix with
      | Some (Ret pat) =>
          Some (PatternMatcher.__call__ pat name,
                LRUCache.__setitem__ cache args pat)
      | Some (Raise e) => Some (Raise e, cache)
      | None => None
      end
  | Raise e => Some (Raise e, cache)
  end.


(** The answer of a call, without the cache it leaves. *)
Definition answer (r : option (result bool * LRUCache.t))
    : option (result bool) :=
  option_map fst r.

(** ** A list-level account of the scan

    [lex] reads the pattern as a list, lexeme by lexeme, and says where
    the loop of [__init__] ends up: with the tokens, at a [raise], or at
    a ["["] that has no ["]"] after it. *)

Inductive lexed :=
| Lexed (ts : list str)
| LexError
| LexOpen.

Definition cons_tok (t : str) (l : lexed) : lexed :=
  match l with
  | Lexed ts => Lexed (t :: ts)
  | LexError => LexError
  | LexOpen => LexOpen
  end.

Fixpoint lex (s : str) {struct s} : lexed :=
  match s with
  | [] => Lexed []
  | c :: r =>
      if Ascii.eqb c "[" then lex_class ["["] r
      else if Ascii.eqb c "]" then LexError
      else if Ascii.eqb c "?" then cons_tok (lit "?") (lex r)
      else if Ascii.eqb c "*" then
        match r with
        | [] => cons_tok (lit "*") (lex r)
        | c2 :: r2 =>
            if Ascii.eqb c2 "*" then
              match r2 with
              | [] => cons_tok (lit "**") (lex r2)
              | c3 :: _ =>
                  if Ascii.eqb c3 "*" then LexError
                  else cons_tok (lit "**") (lex r2)
              end
            else cons_tok (lit "*") (lex r)
        end
      else cons_tok [c] (lex r)
  end
with lex_class (opened : str) (s : str) {struct s} : lexed :=
  match s with
  | [] => LexOpen
  | c :: r =>
      if Ascii.eqb c "]" then cons_tok (opened ++ ["]"]) (lex r)
      else lex_class (opened ++ [c]) r
  end.

(** The text before the first ["]"] and the text after it. *)
Fixpoint split_class (s : str) : option (str * str) :=
  match s with
  | [] => None
  | c :: r =>
      if Ascii.eqb c "]" then Some ([], r)
      else match split_class r with
           | Some (m, r') => Some (c :: m, r')
           | None => None
           end
  end.

(** The number of stars [s] starts with. *)
Fixpoint star_run (s : str) : nat :=
  match s with
  | [] => O
  | c :: r => if Ascii.eqb c "*" then S (star_run r) else O
  end.

(** ** The error condition in the spec's words

    A left-to-right reading that remembers whether it is inside a
    bracket class and how many stars it has just seen: the pattern is
    invalid when it meets a ["]"] outside a class, or a third star in a
    row outside a class.  A class that is never closed runs to the end
    of the pattern. *)
Fixpoint invalid_from (in_class : bool) (run : nat) (s : str) : bool :=
  match s with
  | [] => false
  | c :: r =>
      if in_class then
        if Ascii.eqb c "]" then invalid_from false O r
        else invalid_from true O r
      else if Ascii.eqb c "[" then invalid_from true O r
      else if Ascii.eqb c "]" then true
      else if Ascii.eqb c "*" then
        if (2 <=? run)%nat then true else invalid_from false (S run) r
      else invalid_from false O r
  end.

Definition spec_invalid (pattern : str) : bool := invalid_from false O pattern.

(** A ["["] with no ["]"] after it. *)
Fixpoint open_bracket (s : str) : bool :=
  match s with
  | [] => false
  | c :: r => (Ascii.eqb c "[" && negb (contains r "]")) || open_bracket r
  end.

(** The shapes a token of a compiled pattern has. *)
Inductive wf_token : str -> Prop :=
| wf_class m : wf_token ("[" :: m ++ ["]"])
| wf_any : wf_token (lit "?")
| wf_star : wf_token (lit "*")
| wf_dstar : wf_token (lit "**")
| wf_literal c : c <> "[" -> c <> "?" -> c <> "*" -> wf_token [c].

Definition is_class (t : str) : bool :=
  match t with
  | c :: _ => Ascii.eqb c "["
  | [] => false
  end.

Definition is_wildcard (t : str) : bool :=
  str_eqb t (lit "?") || str_eqb t (lit "*") || str_eqb t (lit "**").

(** A character of a literal: none of the pattern's special ones. *)
Definition plain (c : ascii) : bool :=
  negb (Ascii.eqb c "[" || Ascii.eqb c "]" || Ascii.eqb c "?"
        || Ascii.eqb c "*").

(** How the loop, started at [i] with [rest] characters to go, relates
    to what [lex] says about those characters. *)
Definition follows (pattern : str) (i : Z) (rest : nat) (acc : list str)
    (l : lexed) : Prop :=
  match l with
  | Lexed ts =>
      forall fuel, (rest < fuel)%nat ->
        PatternMatcher.init_loop fuel pattern i acc = Some (Ret (acc ++ ts))
  | LexError =>
      forall fuel, (rest < fuel)%nat ->
        PatternMatcher.init_loop fuel pattern i acc = Some (Raise ValueError)
  | LexOpen =>
      exists k extra, forall m,
        PatternMatcher.init_loop (S k + m) pattern i acc
        = PatternMatcher.init_loop m pattern 0 (acc ++ extra)
  end.

(** The answer of [_PatternMatcherToken.match] as a number ([0] where
    it raises), and the matcher as a function to [bool]: what [_match]
    computes on the tokens of a compiled pattern ([match_matchb]). *)
Definition count (cs : bool) (t : str) (c : ascii) : Z :=
  match _PatternMatcherToken.match_ t c cs with
  | Ret k => k
  | Raise _ => 0
  end.

Fixpoint matchb (cs ap : bool) (ts : list str) (text : str) {struct text}
    : bool :=
  match ts with
  | [] => str_eqb text []
  | t :: ts' =>
      match text with
      | [] => ap
      | c :: text' =>
          if count cs t c =? 0 then false
          else if count cs t c =? 1 then matchb cs ap ts' text'
          else matchb cs ap ts' text' || matchb cs ap ts text'
      end
  end.

(** What a class token with [m] between its brackets answers. *)
Definition class_count (m : str) (c : ascii) : Z :=
  match m with
  | d :: m' =>
      if Ascii.eqb d "!" then (if contains m' c then 0 else 1)
      else (if contains m c then 1 else 0)
  | [] => 0
  end.

(** A token that at least one character satisfies. *)
Definition satisfiable (cs : bool) (t : str) : Prop :=
  exists c, count cs t c <> 0.

(** Building the matcher and calling it, with no cache in between. *)
Definition uncached (args : LRUCache.key) (name : str)
    : option (result bool) :=
  let '(pattern, case_sensitive, accept_prefix) := args in
  match PatternMatcher.__init__ pattern case_sensitive accept_prefix with
  | Some (Ret pat) => Some (PatternMatcher.__call__ pat name)
  | Some (Raise e) => Some (Raise e)
  | None => None
  end.

(** The invariant of the cache: every entry holds the matcher that the
    constructor builds for its key. *)
Definition coherent (cache : LRUCache.t) : Prop :=
  forall pattern cs ap v,
    In ((pattern, cs, ap), v) (LRUCache.entries cache) ->
    PatternMatcher.__init__ pattern cs ap = Some (Ret v).

(** The tokens of a pattern of literal characters. *)
Definition singles (s : str) : list str := map (fun c => [c]) s.

(** Whether [lex] ended at a [raise], and whether it gave tokens. *)
Definition lex_error (l : lexed) : bool :=
  match l with
  | LexError => true
  | _ => false
  end.

Definition lex_ok (l : lexed) : bool :=
  match l with
  | Lexed _ => true
  | _ => false
  end.

(** The states of the cache that calls of [match] and [imatch] lead
    to from the module's initial state. *)
Inductive reachable : LRUCache.t -> Prop :=
| reach_initial : reachable _PATTERN_CACHE
| reach_match pattern name ap cache r cache' :
    reachable cache ->
    match_ pattern name ap cache = Some (r, cache') ->
    reachable cache'
| reach_imatch pattern name ap cache r cache' :
    reachable cache ->
    imatch pattern name ap cache = Some (r, cache') ->
    reachable cache'.

(** [n] is a prefix of [p]. *)
Fixpoint is_prefix (n p : str) : bool :=
  match n with
  | [] => true
  | c :: n' =>
      match p with
      | [] => false
      | d :: p' => Ascii.eqb c d && is_prefix n' p'
      end
  end.

(** A star token, [*] or [**]. *)
Definition is_star (t : str) : bool :=
  str_eqb t (lit "*") || str_eqb t (lit "**").

(** [n] and [p] have the same length and, position by position,
    characters with the same [lower()]. *)
Fixpoint same_folded (n p : str) : bool :=
  match n, p with
  | [], [] => true
  | c :: n', d :: p' =>
      Ascii.eqb (lower_char c) (lower_char d) && same_folded n' p'
  | _, _ => false
  end.

(** [any] over the patterns with no cache in between. *)
Fixpoint any_uncached (cs ap : bool) (name : str) (ps : list str)
    : option (result bool) :=
  match ps with
  | [] => Some (Ret false)
  | p :: ps' =>
      match uncached (p, cs, ap) name with
      | Some (Ret b) =>
          if b then Some (Ret true) else any_uncached cs ap name ps'
      | Some (Raise e) => Some (Raise e)
      | None => None
      end
  end.

(** ** Python strings: lemmas *)

Arguments Ascii.eqb : simpl never.

Lemma contains_cons s c d :
  contains (d :: s) c = Ascii.eqb d c || contains s c.
Proof. unfold contains. simpl. rewrite (Ascii.eqb_sym c d). reflexivity. Qed.

Lemma contains_nil c : contains [] c = false.
Proof. reflexivity. Qed.

Lemma contains_app a b c : contains (a ++ b) c = contains a c || contains b c.
Proof. unfold contains. apply existsb_app. Qed.

Arguments contains : simpl never.

Lemma match_unfold pattern name accept_prefix cache :
  match_ pattern name accept_prefix cache
  = cached_match (pattern, true, accept_prefix) name cache.
Proof. reflexivity. Qed.

Lemma imatch_unfold pattern name accept_prefix cache :
  imatch pattern name accept_prefix cache
  = cached_match (pattern, false, accept_prefix) name cache.
Proof. reflexivity. Qed.

Lemma len_nonneg s : 0 <= len s.
Proof. unfold len. lia. Qed.

Lemma len_app a b : len (a ++ b) = len a + len b.
Proof. unfold len. rewrite length_app. lia. Qed.

Lemma len_cons c s : len (c :: s) = 1 + len s.
Proof. unfold len. simpl List.length. lia. Qed.

Lemma len_nil : len [] = 0.
Proof. reflexivity. Qed.

Lemma to_nat_len s : Z.to_nat (len s) = List.length s.
Proof. unfold len. apply Nat2Z.id. Qed.

Lemma clamp_in n k : 0 <= k <= n -> clamp n k = k.
Proof. unfold clamp. intros. destruct (Z.ltb_spec k 0); lia. Qed.

Lemma str_eqb_eq a b : str_eqb a b = true <-> a = b.
Proof.
  unfold str_eqb. destruct (list_eq_dec ascii_dec a b); split; congruence.
Qed.

Lemma str_eqb_refl a : str_eqb a a = true.
Proof. apply str_eqb_eq. reflexivity. Qed.

Lemma str_eqb_neq a b : a <> b -> str_eqb a b = false.
Proof.
  unfold str_eqb. destruct (list_eq_dec ascii_dec a b); congruence.
Qed.

Lemma getitem_app pre c r : getitem (pre ++ c :: r) (len pre) = Ret c.
Proof.
  unfold getitem. pose proof (len_nonneg pre). pose proof (len_nonneg r).
  destruct (Z.ltb_spec (len pre) 0); [lia|].
  rewrite len_app, len_cons.
  destruct (Z.ltb_spec (len pre) 0); [lia|].
  destruct (Z.leb_spec (len pre + (1 + len r)) (len pre)); [lia|].
  simpl. rewrite to_nat_len.
  rewrite nth_error_app2 by lia. rewrite Nat.sub_diag. reflexivity.
Qed.

Lemma slice_app pre m r :
  slice (pre ++ m ++ r) (len pre) (len pre + len m) = m.
Proof.
  unfold slice. pose proof (len_nonneg pre). pose proof (len_nonneg m).
  pose proof (len_nonneg r).
  rewrite !clamp_in by (rewrite !len_app; lia).
  rewrite to_nat_len.
  rewrite skipn_app, skipn_all, Nat.sub_diag. simpl.
  replace (Z.to_nat (len pre + len m - len pre)) with (List.length m)
    by (unfold len; lia).
  rewrite firstn_app, firstn_all, Nat.sub_diag. simpl.
  apply app_nil_r.
Qed.

Lemma slice_to_zero s a : 0 <= a -> slice s a 0 = [].
Proof.
  intros Ha. unfold slice. pose proof (len_nonneg s).
  assert (clamp (len s) 0 = 0) by (apply clamp_in; lia).
  assert (0 <= clamp (len s) a).
  { unfold clamp. destruct (Z.ltb_spec a 0); lia. }
  replace (Z.to_nat (clamp (len s) 0 - clamp (len s) a)) with O by lia.
  reflexivity.
Qed.

Lemma find_app pre s c :
  find (pre ++ s) c (len pre)
  = match index_of c s with
    | Some k => len pre + Z.of_nat k
    | None => -1
    end.
Proof.
  unfold find. pose proof (len_nonneg pre). pose proof (len_nonneg s).
  rewrite clamp_in by (rewrite len_app; lia).
  rewrite to_nat_len.
  rewrite skipn_app, skipn_all, Nat.sub_diag. reflexivity.
Qed.

Lemma getitem_app_nth pre s j :
  getitem (pre ++ s) (len pre + Z.of_nat j)
  = match nth_error s j with
    | Some c => Ret c
    | None => Raise IndexError
    end.
Proof.
  unfold getitem. pose proof (len_nonneg pre).
  destruct (Z.ltb_spec (len pre + Z.of_nat j) 0); [lia|].
  destruct (Z.ltb_spec (len pre + Z.of_nat j) 0); [lia|]. simpl.
  rewrite len_app.
  destruct (Z.leb_spec (len pre + len s) (len pre + Z.of_nat j)).
  - destruct (nth_error s j) eqn:E; [|reflexivity].
    assert (nth_error s j <> None) as Hn by congruence.
    apply nth_error_Some in Hn. unfold len in *. lia.
  - replace (Z.to_nat (len pre + Z.of_nat j)) with (List.length pre + j)%nat
      by (unfold len; lia).
    rewrite nth_error_app2 by lia.
    replace (List.length pre + j - List.length pre)%nat with j by lia.
    reflexivity.
Qed.

(** ** The scan, lexeme by lexeme *)

Lemma split_class_app s m r :
  split_class s = Some (m, r) ->
  s = m ++ "]" :: r /\ index_of "]" s = Some (List.length m).
Proof.
  revert m r. induction s as [|c s IH]; simpl; intros m r H; [discriminate|].
  destruct (Ascii.eqb c "]") eqn:E.
  - apply Ascii.eqb_eq in E. inversion H; subst. split; reflexivity.
  - destruct (split_class s) as [[m' r']|]; [|discriminate].
    inversion H; subst. destruct (IH m' r eq_refl) as [-> ->].
    split; reflexivity.
Qed.

Lemma split_class_none s :
  split_class s = None -> index_of "]" s = None /\ contains s "]" = false.
Proof.
  induction s as [|c s IH]; simpl; intros H; [split; reflexivity|].
  rewrite contains_cons.
  destruct (Ascii.eqb c "]"); [discriminate|].
  destruct (split_class s) as [[m' r']|]; [discriminate|].
  destruct (IH eq_refl) as [-> ->]. split; reflexivity.
Qed.

Lemma lex_class_split opened s :
  lex_class opened s
  = match split_class s with
    | Some (m, r) => cons_tok (opened ++ m ++ ["]"]) (lex r)
    | None => LexOpen
    end.
Proof.
  revert opened. induction s as [|c s IH]; simpl; intros opened; [reflexivity|].
  destruct (Ascii.eqb c "]"); [reflexivity|].
  rewrite IH. destruct (split_class s) as [[m r]|]; [|reflexivity].
  rewrite <- app_assoc. reflexivity.
Qed.

Lemma star_run_le s : (star_run s <= List.length s)%nat.
Proof.
  induction s as [|c s IH]; simpl; [lia|].
  destruct (Ascii.eqb c "*"); lia.
Qed.

Lemma star_run_nth s j :
  (j < star_run s)%nat -> nth_error s j = Some "*".
Proof.
  revert j. induction s as [|c s IH]; simpl; intros j H; [lia|].
  destruct (Ascii.eqb c "*") eqn:E; [|lia].
  apply Ascii.eqb_eq in E. subst c.
  destruct j; [reflexivity|]. simpl. apply IH. lia.
Qed.

Lemma star_run_stop s c :
  nth_error s (star_run s) = Some c -> Ascii.eqb c "*" = false.
Proof.
  induction s as [|d s IH]; simpl; [discriminate|].
  destruct (Ascii.eqb d "*") eqn:E; simpl; [assumption|].
  intros H. inversion H; subst. assumption.
Qed.

Lemma asterik_loop_run pre r fuel j :
  (j <= star_run r)%nat -> (star_run r - j < fuel)%nat ->
  PatternMatcher.asterik_loop fuel (pre ++ "*" :: r) (len pre)
    (1 + Z.of_nat j)
  = Ret (1 + Z.of_nat (star_run r)).
Proof.
  revert j. induction fuel as [|fuel IH]; intros j Hj Hf; [lia|].
  cbn [PatternMatcher.asterik_loop]. rewrite len_app, len_cons.
  replace (1 + Z.of_nat j + len pre) with (len pre + Z.of_nat (S j)) by lia.
  pose proof (star_run_le r) as Hle.
  destruct (Z.ltb_spec (len pre + Z.of_nat (S j)) (len pre + (1 + len r)))
    as [Hlt|Hge].
  - rewrite getitem_app_nth. cbn [nth_error bind].
    destruct (Nat.eq_dec j (star_run r)) as [->|Hne].
    + destruct (nth_error r (star_run r)) as [c|] eqn:E.
      * cbn [bind]. rewrite (star_run_stop _ _ E). reflexivity.
      * apply nth_error_None in E. unfold len in Hlt. lia.
    + rewrite star_run_nth by lia. cbn [bind].
      change (Ascii.eqb "*" "*") with true. cbv iota.
      replace (1 + Z.of_nat j + 1) with (1 + Z.of_nat (S j)) by lia.
      apply IH; lia.
  - unfold len in Hge. f_equal. lia.
Qed.

(** The inner loop stops because its condition fails, never for lack
    of fuel: it returns the length of the whole run of stars. *)
Lemma asterik_loop_exact pre r :
  PatternMatcher.asterik_loop (List.length (pre ++ "*" :: r))
    (pre ++ "*" :: r) (len pre) 1
  = Ret (1 + Z.of_nat (star_run r)).
Proof.
  apply (asterik_loop_run pre r _ O); [lia|].
  rewrite length_app. simpl. pose proof (star_run_le r). lia.
Qed.

Lemma body_class pre r m r' acc :
  split_class r = Some (m, r') ->
  PatternMatcher.init_body (pre ++ "[" :: r) (len pre) acc
  = Ret (len (pre ++ "[" :: m ++ ["]"]), acc ++ ["[" :: m ++ ["]"]]).
Proof.
  intros H. destruct (split_class_app _ _ _ H) as [Hr Hi].
  unfold PatternMatcher.init_body. rewrite getitem_app. cbn [bind].
  change (Ascii.eqb "[" "[") with true. cbv iota zeta.
  rewrite find_app. cbn [index_of].
  change (Ascii.eqb "[" "]") with false. cbv iota. rewrite Hi.
  assert (len pre + Z.of_nat (S (List.length m)) + 1
          = len pre + len ("[" :: m ++ ["]"])) as ->.
  { rewrite len_cons, len_app, len_cons, len_nil. unfold len. lia. }
  replace (pre ++ "[" :: r) with (pre ++ ("[" :: m ++ ["]"]) ++ r').
  - rewrite slice_app. rewrite len_app. reflexivity.
  - rewrite Hr. simpl. rewrite <- app_assoc. reflexivity.
Qed.

Lemma body_open pre r acc :
  split_class r = None ->
  PatternMatcher.init_body (pre ++ "[" :: r) (len pre) acc
  = Ret (0, acc ++ [[]]).
Proof.
  intros H. destruct (split_class_none _ H) as [Hi _].
  unfold PatternMatcher.init_body. rewrite getitem_app. cbn [bind].
  change (Ascii.eqb "[" "[") with true. cbv iota zeta.
  rewrite find_app. cbn [index_of].
  change (Ascii.eqb "[" "]") with false. cbv iota. rewrite Hi.
  change (-1 + 1) with 0.
  rewrite slice_to_zero by apply len_nonneg. reflexivity.
Qed.

Lemma body_rbracket pre r acc :
  PatternMatcher.init_body (pre ++ "]" :: r) (len pre) acc = Raise ValueError.
Proof.
  unfold PatternMatcher.init_body. rewrite getitem_app. reflexivity.
Qed.

Lemma body_any pre r acc :
  PatternMatcher.init_body (pre ++ "?" :: r) (len pre) acc
  = Ret (len (pre ++ ["?"]), acc ++ [lit "?"]).
Proof.
  unfold PatternMatcher.init_body. rewrite getitem_app. cbn [bind].
  rewrite len_app. reflexivity.
Qed.

Lemma body_star pre r acc :
  PatternMatcher.init_body (pre ++ "*" :: r) (len pre) acc
  = if (2 <=? star_run r)%nat then Raise ValueError
    else Ret (len (pre ++ repeat "*" (S (star_run r))),
              acc ++ [repeat "*" (S (star_run r))]).
Proof.
  unfold PatternMatcher.init_body. rewrite getitem_app. cbn [bind].
  change (Ascii.eqb "*" "[") with false.
  change (Ascii.eqb "*" "]") with false.
  change (Ascii.eqb "*" "?") with false.
  change (Ascii.eqb "*" "*") with true. cbv iota.
  rewrite asterik_loop_exact. cbn [bind].
  destruct (Nat.leb_spec 2 (star_run r)) as [H|H];
    destruct (Z.ltb_spec 2 (1 + Z.of_nat (star_run r))); try lia;
    [reflexivity|].
  unfold stars. rewrite len_app.
  replace (Z.to_nat (1 + Z.of_nat (star_run r))) with (S (star_run r)) by lia.
  f_equal. f_equal. unfold len. rewrite repeat_length. lia.
Qed.

Lemma body_literal pre c r acc :
  plain c = true ->
  PatternMatcher.init_body (pre ++ c :: r) (len pre) acc
  = Ret (len (pre ++ [c]), acc ++ [[c]]).
Proof.
  unfold plain. intros H. apply negb_true_iff in H.
  apply orb_false_iff in H as [H H4]. apply orb_false_iff in H as [H H3].
  apply orb_false_iff in H as [H1 H2].
  unfold PatternMatcher.init_body. rewrite getitem_app. cbn [bind].
  rewrite H1, H2, H3, H4. rewrite len_app. reflexivity.
Qed.

Lemma follows_step pattern i i' rest rest' acc t l :
  i < len pattern ->
  PatternMatcher.init_body pattern i acc = Ret (i', acc ++ [t]) ->
  (rest' < rest)%nat ->
  follows pattern i' rest' (acc ++ [t]) l ->
  follows pattern i rest acc (cons_tok t l).
Proof.
  intros Hi Hb Hr H. apply Z.ltb_lt in Hi.
  destruct l as [ts| |]; cbn [cons_tok follows] in *.
  - intros [|fuel] Hf; [lia|]. cbn [PatternMatcher.init_loop].
    rewrite Hi, Hb. rewrite H by lia. rewrite <- app_assoc. reflexivity.
  - intros [|fuel] Hf; [lia|]. cbn [PatternMatcher.init_loop].
    rewrite Hi, Hb. apply H. lia.
  - destruct H as (k & extra & H). exists (S k), (t :: extra). intros m.
    cbn [PatternMatcher.init_loop plus]. rewrite Hi, Hb.
    rewrite <- app_assoc in H. cbn [app] in H.
    destruct k; simpl in H; rewrite <- H; reflexivity.
Qed.

Lemma follows_raise pattern i rest acc :
  i < len pattern ->
  PatternMatcher.init_body pattern i acc = Raise ValueError ->
  follows pattern i rest acc LexError.
Proof.
  intros Hi Hb. apply Z.ltb_lt in Hi. intros [|fuel] Hf; [lia|].
  cbn [PatternMatcher.init_loop]. rewrite Hi, Hb. reflexivity.
Qed.

Lemma follows_lexeme pre lx r acc l :
  lx <> [] ->
  PatternMatcher.init_body (pre ++ lx ++ r) (len pre) acc
  = Ret (len (pre ++ lx), acc ++ [lx]) ->
  follows ((pre ++ lx) ++ r) (len (pre ++ lx)) (List.length r)
    (acc ++ [lx]) l ->
  follows (pre ++ lx ++ r) (len pre) (List.length (lx ++ r)) acc
    (cons_tok lx l).
Proof.
  intros Hlx Hb H.
  assert (0 < len lx).
  { destruct lx; [congruence|]. rewrite len_cons. pose proof (len_nonneg lx).
    lia. }
  eapply follows_step; [| exact Hb | | rewrite app_assoc; exact H].
  - rewrite !len_app. pose proof (len_nonneg r). lia.
  - rewrite length_app. unfold len in *. lia.
Qed.

(** The loop of [__init__] does what [lex] says. *)
Lemma init_loop_lex n :
  forall s pre acc, (List.length s <= n)%nat ->
    follows (pre ++ s) (len pre) (List.length s) acc (lex s).
Proof.
  induction n as [|n IH]; intros s pre acc Hn.
  { destruct s; [|simpl in Hn; lia]. intros [|fuel] Hf; [lia|].
    cbn [PatternMatcher.init_loop]. rewrite app_nil_r.
    rewrite Z.ltb_irrefl, app_nil_r. reflexivity. }
  destruct s as [|c r].
  { intros [|fuel] Hf; [lia|].
    cbn [PatternMatcher.init_loop]. rewrite app_nil_r.
    rewrite Z.ltb_irrefl, app_nil_r. reflexivity. }
  cbn [List.length] in Hn.
  assert (len pre < len (pre ++ c :: r)) as Hin.
  { rewrite len_app, len_cons. pose proof (len_nonneg r). lia. }
  cbn [lex].
  destruct (Ascii.eqb c "[") eqn:E1.
  { apply Ascii.eqb_eq in E1. subst c. rewrite lex_class_split.
    destruct (split_class r) as [[m r']|] eqn:Es.
    - destruct (split_class_app _ _ _ Es) as [Hr _].
      assert ("[" :: r = ("[" :: m ++ ["]"]) ++ r') as Hp.
      { rewrite Hr. simpl. rewrite <- app_assoc. reflexivity. }
      rewrite Hp. change (["["] ++ m ++ ["]"]) with ("[" :: m ++ ["]"]).
      apply follows_lexeme; [discriminate| |].
      + rewrite <- Hp. apply (body_class _ _ _ _ _ Es).
      + apply IH. rewrite Hr, length_app in Hn. simpl in Hn. lia.
    - exists O, [[]]. intros k. cbn [plus PatternMatcher.init_loop].
      apply Z.ltb_lt in Hin. rewrite Hin.
      rewrite (body_open _ _ _ Es). reflexivity. }
  destruct (Ascii.eqb c "]") eqn:E2.
  { apply Ascii.eqb_eq in E2. subst c.
    apply follows_raise; [exact Hin | apply body_rbracket]. }
  destruct (Ascii.eqb c "?") eqn:E3.
  { apply Ascii.eqb_eq in E3. subst c.
    change ("?" :: r) with (lit "?" ++ r).
    apply follows_lexeme; [discriminate | apply body_any |].
    apply IH. lia. }
  destruct (Ascii.eqb c "*") eqn:E4.
  { apply Ascii.eqb_eq in E4. subst c.
    pose proof (body_star pre r acc) as Hb.
    destruct r as [|c2 r2].
    - change (follows (pre ++ lit "*" ++ []) (len pre)
                (List.length (lit "*" ++ [])) acc
                (cons_tok (lit "*") (lex []))).
      apply follows_lexeme; [discriminate | exact Hb |].
      apply IH. simpl. lia.
    - destruct (Ascii.eqb c2 "*") eqn:E5.
      + apply Ascii.eqb_eq in E5. subst c2.
        destruct r2 as [|c3 r3].
        * change (follows (pre ++ lit "**" ++ []) (len pre)
                    (List.length (lit "**" ++ [])) acc
                    (cons_tok (lit "**") (lex []))).
          apply follows_lexeme; [discriminate | exact Hb |].
          apply IH. simpl. lia.
        * destruct (Ascii.eqb c3 "*") eqn:E6.
          -- apply Ascii.eqb_eq in E6. subst c3.
             apply follows_raise; [exact Hin|].
             rewrite Hb. cbn [star_run].
             change (Ascii.eqb "*" "*") with true. reflexivity.
          -- change (follows (pre ++ lit "**" ++ c3 :: r3) (len pre)
                       (List.length (lit "**" ++ c3 :: r3)) acc
                       (cons_tok (lit "**") (lex (c3 :: r3)))).
             apply follows_lexeme; [discriminate | |].
             ++ cbn [star_run] in Hb.
                change (Ascii.eqb "*" "*") with true in Hb.
                rewrite E6 in Hb. exact Hb.
             ++ apply IH. simpl in Hn |- *. lia.
      + change (follows (pre ++ lit "*" ++ c2 :: r2) (len pre)
                  (List.length (lit "*" ++ c2 :: r2)) acc
                  (cons_tok (lit "*") (lex (c2 :: r2)))).
        apply follows_lexeme; [discriminate | |].
        * cbn [star_run] in Hb. rewrite E5 in Hb. exact Hb.
        * apply IH. simpl in Hn |- *. lia. }
  change (c :: r) with ([c] ++ r).
  apply follows_lexeme; [discriminate | |].
  - apply body_literal. unfold plain. rewrite E1, E2, E3, E4. reflexivity.
  - apply IH. lia.
Qed.

Lemma init_loop_more fuel pattern i acc r :
  PatternMatcher.init_loop fuel pattern i acc = Some r ->
  forall fuel', (fuel <= fuel')%nat ->
    PatternMatcher.init_loop fuel' pattern i acc = Some r.
Proof.
  revert i acc. induction fuel as [|fuel IH]; intros i acc H fuel' Hf;
    [discriminate|].
  destruct fuel' as [|fuel']; [lia|]. cbn [PatternMatcher.init_loop] in *.
  destruct (i <? len pattern); [|exact H].
  destruct (PatternMatcher.init_body pattern i acc) as [[i' acc']|e];
    [|exact H].
  apply IH; [exact H | lia].
Qed.

Lemma init_loop_lexed pattern ts fuel :
  lex pattern = Lexed ts -> (List.length pattern < fuel)%nat ->
  PatternMatcher.init_loop fuel pattern 0 [] = Some (Ret ts).
Proof.
  intros H Hf. pose proof (init_loop_lex _ pattern [] [] (le_n _)) as F.
  rewrite H in F. exact (F fuel Hf).
Qed.

Lemma init_loop_error pattern fuel :
  lex pattern = LexError -> (List.length pattern < fuel)%nat ->
  PatternMatcher.init_loop fuel pattern 0 [] = Some (Raise ValueError).
Proof.
  intros H Hf. pose proof (init_loop_lex _ pattern [] [] (le_n _)) as F.
  rewrite H in F. exact (F fuel Hf).
Qed.

(** At a ["["] that is never closed, [find] answers [-1], [i] goes back
    to [0] and the scan starts over: the loop never ends. *)
Lemma init_loop_open pattern :
  lex pattern = LexOpen ->
  forall fuel acc, PatternMatcher.init_loop fuel pattern 0 acc = None.
Proof.
  intros H fuel. induction fuel as [fuel IH] using lt_wf_ind. intros acc.
  pose proof (init_loop_lex _ pattern [] acc (le_n _)) as F.
  rewrite H in F. destruct F as (k & extra & F). cbn [app len] in F.
  change (Z.of_nat (List.length (@nil ascii))) with 0 in F.
  destruct (le_lt_dec fuel k) as [Hle|Hlt].
  - destruct (PatternMatcher.init_loop fuel pattern 0 acc) as [r|] eqn:E;
      [|reflexivity].
    pose proof (init_loop_more _ _ _ _ _ E (S k + 0)%nat ltac:(lia)) as E'.
    rewrite F in E'. discriminate.
  - replace fuel with (S k + (fuel - S k))%nat by lia.
    rewrite F. apply IH. lia.
Qed.

(** What the constructor does, read off [lex]. *)
Lemma init_lex pattern cs ap :
  PatternMatcher.__init__ pattern cs ap
  = match lex pattern with
    | Lexed ts => Some (Ret (PatternMatcher.Build cs ap ts))
    | LexError => Some (Raise ValueError)
    | LexOpen => None
    end.
Proof.
  unfold PatternMatcher.__init__, PatternMatcher.init_fuel.
  destruct (lex pattern) as [ts| |] eqn:E.
  - rewrite (init_loop_lexed _ _ _ E) by lia. reflexivity.
  - rewrite (init_loop_error _ _ E) by lia. reflexivity.
  - rewrite (init_loop_open _ E). reflexivity.
Qed.

(** The fuel of [__init__] is enough: a run of the loop that returns
    with some fuel returns the same with the fuel [__init__] gives
    it, and a run that does not return with that fuel never returns. *)
Lemma init_fuel_adequate pattern cs ap :
  (forall fuel r,
      PatternMatcher.init_fuel fuel pattern cs ap = Some r ->
      PatternMatcher.__init__ pattern cs ap = Some r)
  /\ (PatternMatcher.__init__ pattern cs ap = None ->
      forall fuel, PatternMatcher.init_fuel fuel pattern cs ap = None).
Proof.
  split.
  - intros fuel r H. rewrite init_lex. unfold PatternMatcher.init_fuel in H.
    destruct (PatternMatcher.init_loop fuel pattern 0 []) as [x|] eqn:E;
      [|discriminate].
    pose proof (init_loop_more _ _ _ _ _ E
                  (fuel + S (List.length pattern))%nat ltac:(lia)) as E'.
    clear E. rename E' into E.
    destruct (lex pattern) as [ts| |] eqn:L.
    + rewrite (init_loop_lexed _ _ _ L) in E by lia.
      inversion E; subst. exact H.
    + rewrite (init_loop_error _ _ L) in E by lia.
      inversion E; subst. exact H.
    + rewrite (init_loop_open _ L) in E. discriminate.
  - rewrite init_lex. destruct (lex pattern) eqn:L; try discriminate.
    intros _ fuel. unfold PatternMatcher.init_fuel.
    rewrite (init_loop_open _ L). reflexivity.
Qed.

(** Induction along the lexemes of a pattern. *)
Lemma lex_induction (P : str -> lexed -> Prop) :
  P [] (Lexed []) ->
  (forall m r, contains m "]" = false -> P r (lex r) ->
     P ("[" :: m ++ "]" :: r) (cons_tok ("[" :: m ++ ["]"]) (lex r))) ->
  (forall r, contains r "]" = false -> P ("[" :: r) LexOpen) ->
  (forall r, P ("]" :: r) LexError) ->
  (forall r, P r (lex r) -> P ("?" :: r) (cons_tok (lit "?") (lex r))) ->
  (forall r, star_run r = O -> P r (lex r) ->
     P ("*" :: r) (cons_tok (lit "*") (lex r))) ->
  (forall r, star_run r = O -> P r (lex r) ->
     P ("*" :: "*" :: r) (cons_tok (lit "**") (lex r))) ->
  (forall r, P ("*" :: "*" :: "*" :: r) LexError) ->
  (forall c r, plain c = true -> P r (lex r) ->
     P (c :: r) (cons_tok [c] (lex r))) ->
  forall s, P s (lex s).
Proof.
  intros Hnil Hclass Hopen Hrb Hany Hstar Hdstar Hbad Hlit s.
  remember (List.length s) as n eqn:Hn.
  assert (List.length s <= n)%nat as Hle by lia. clear Hn.
  revert s Hle. induction n as [|n IH]; intros s Hle.
  { destruct s; [exact Hnil | simpl in Hle; lia]. }
  destruct s as [|c r]; [exact Hnil|]. cbn [List.length] in Hle.
  cbn [lex].
  destruct (Ascii.eqb c "[") eqn:E1.
  { apply Ascii.eqb_eq in E1. subst c. rewrite lex_class_split.
    destruct (split_class r) as [[m r']|] eqn:Es.
    - destruct (split_class_app _ _ _ Es) as [Hr _]. subst r.
      change (["["] ++ m ++ ["]"]) with ("[" :: m ++ ["]"]).
      apply Hclass.
      + clear -Es. revert m r' Es.
        assert (forall s m r', split_class s = Some (m, r') ->
                  contains m "]" = false) as G.
        { induction s as [|c s IH]; simpl; intros m r' H; [discriminate|].
          destruct (Ascii.eqb c "]") eqn:E.
          - inversion H; subst. reflexivity.
          - destruct (split_class s) as [[m' r'']|]; [|discriminate].
            inversion H; subst. rewrite contains_cons, E.
            exact (IH _ _ eq_refl). }
        intros m r' Es. exact (G _ _ _ Es).
      + apply IH. rewrite length_app in Hle. simpl in Hle. lia.
    - apply Hopen. apply (split_class_none _ Es). }
  destruct (Ascii.eqb c "]") eqn:E2.
  { apply Ascii.eqb_eq in E2. subst c. apply Hrb. }
  destruct (Ascii.eqb c "?") eqn:E3.
  { apply Ascii.eqb_eq in E3. subst c. apply Hany. apply IH. lia. }
  destruct (Ascii.eqb c "*") eqn:E4.
  { apply Ascii.eqb_eq in E4. subst c.
    destruct r as [|c2 r2].
    - apply Hstar; [reflexivity | apply IH; simpl; lia].
    - destruct (Ascii.eqb c2 "*") eqn:E5.
      + apply Ascii.eqb_eq in E5. subst c2.
        destruct r2 as [|c3 r3].
        * apply Hdstar; [reflexivity | apply IH; simpl; lia].
        * destruct (Ascii.eqb c3 "*") eqn:E6.
          -- apply Ascii.eqb_eq in E6. subst c3. apply Hbad.
          -- apply Hdstar; [simpl; rewrite E6; reflexivity|].
             apply IH. simpl in Hle |- *. lia.
      + apply Hstar; [simpl; rewrite E5; reflexivity|].
        apply IH. simpl in Hle |- *. lia. }
  apply Hlit; [unfold plain; rewrite E1, E2, E3, E4; reflexivity|].
  apply IH. lia.
Qed.

(** ** The tokens of a compiled pattern *)

Lemma slice_inner a m b :
  0 < len b -> slice (a ++ m ++ b) (len a) (- len b) = m.
Proof.
  intros Hb. unfold slice. pose proof (len_nonneg a). pose proof (len_nonneg m).
  rewrite (clamp_in _ (len a)) by (rewrite !len_app; lia).
  assert (clamp (len (a ++ m ++ b)) (- len b) = len a + len m) as ->.
  { unfold clamp. rewrite !len_app.
    destruct (Z.ltb_spec (- len b) 0); lia. }
  rewrite to_nat_len.
  rewrite skipn_app, skipn_all, Nat.sub_diag. simpl.
  replace (Z.to_nat (len a + len m - len a)) with (List.length m)
    by (unfold len; lia).
  rewrite firstn_app, firstn_all, Nat.sub_diag. simpl.
  apply app_nil_r.
Qed.

Lemma slice_class m : slice ("[" :: m ++ ["]"]) 1 (-1) = m.
Proof. exact (slice_inner ["["] m ["]"] eq_refl). Qed.

Lemma slice_class_neg m : slice ("[" :: "!" :: m ++ ["]"]) 2 (-1) = m.
Proof. exact (slice_inner (lit "[!") m ["]"] eq_refl). Qed.

Lemma getitem_second a b r : getitem (a :: b :: r) 1 = Ret b.
Proof. exact (getitem_app_nth [a] (b :: r) 0). Qed.

Lemma match_class m c cs :
  _PatternMatcherToken.match_ ("[" :: m ++ ["]"]) c cs
  = Ret (class_count m c).
Proof.
  unfold _PatternMatcherToken.match_.
  change (getitem ("[" :: m ++ ["]"]) 0) with (@Ret ascii "[").
  cbn [bind]. change (Ascii.eqb "[" "[") with true. cbv iota.
  destruct m as [|d m'].
  - reflexivity.
  - cbn [app]. rewrite getitem_second. cbn [bind class_count].
    destruct (Ascii.eqb d "!") eqn:E; cbv zeta.
    + apply Ascii.eqb_eq in E. subst d.
      rewrite slice_class_neg. reflexivity.
    + change ("[" :: d :: m' ++ ["]"]) with ("[" :: (d :: m') ++ ["]"]).
      rewrite slice_class. reflexivity.
Qed.

Lemma match_qmark c cs : _PatternMatcherToken.match_ (lit "?") c cs = Ret 1.
Proof. reflexivity. Qed.

Lemma match_star c cs :
  _PatternMatcherToken.match_ (lit "*") c cs
  = Ret (if negb (Ascii.eqb c "/") then 2 else 0).
Proof. reflexivity. Qed.

Lemma match_dstar c cs : _PatternMatcherToken.match_ (lit "**") c cs = Ret 2.
Proof. reflexivity. Qed.

Lemma match_literal d c cs :
  d <> "[" -> d <> "?" -> d <> "*" ->
  _PatternMatcherToken.match_ [d] c cs
  = Ret (if cs then (if Ascii.eqb d c then 1 else 0)
         else (if Ascii.eqb (lower_char d) (lower_char c) then 1 else 0)).
Proof.
  intros H1 H2 H3. unfold _PatternMatcherToken.match_.
  change (getitem [d] 0) with (Ret d). cbn [bind].
  apply Ascii.eqb_neq in H1. rewrite H1.
  rewrite (str_eqb_neq [d] (lit "?")) by (intros E; inversion E; congruence).
  rewrite (str_eqb_neq [d] (lit "*")) by (intros E; inversion E; congruence).
  rewrite (str_eqb_neq [d] (lit "**")) by (intros E; inversion E).
  assert (forall x y, str_eqb [x] [y] = Ascii.eqb x y) as G.
  { intros x y. destruct (Ascii.eqb x y) eqn:E.
    - apply Ascii.eqb_eq in E. subst. apply str_eqb_refl.
    - apply str_eqb_neq. apply Ascii.eqb_neq in E. congruence. }
  destruct cs; [rewrite G | unfold lower; cbn [map]; rewrite G]; reflexivity.
Qed.

(** On a compiled pattern's token the test never raises, and answers
    0, 1 or 2. *)
Lemma match_total t c cs :
  wf_token t ->
  _PatternMatcherToken.match_ t c cs = Ret (count cs t c)
  /\ 0 <= count cs t c <= 2.
Proof.
  intros H. unfold count. destruct H.
  - rewrite match_class. split; [reflexivity|].
    unfold class_count. destruct m as [|d m']; [lia|].
    destruct (Ascii.eqb d "!"); [destruct (contains m' c)
                                | destruct (contains (d :: m') c)]; lia.
  - rewrite match_qmark. split; [reflexivity | lia].
  - rewrite match_star. split; [reflexivity|].
    destruct (negb (Ascii.eqb c "/")); lia.
  - rewrite match_dstar. split; [reflexivity | lia].
  - rewrite match_literal by assumption. split; [reflexivity|].
    destruct cs; [destruct (Ascii.eqb c0 c)
                 | destruct (Ascii.eqb (lower_char c0) (lower_char c))]; lia.
Qed.

(** [_match] on well-formed tokens never raises; it computes [matchb]. *)
Lemma match_matchb self text :
  forall ts, Forall wf_token ts ->
    PatternMatcher._match self ts text
    = Ret (matchb (PatternMatcher.case_sensitive self)
             (PatternMatcher.accept_prefixes self) ts text).
Proof.
  induction text as [|c text IH]; intros ts Hts.
  - destruct ts; reflexivity.
  - destruct ts as [|t ts]; [reflexivity|].
    cbn [PatternMatcher._match matchb].
    inversion Hts as [|? ? Ht Hts']; subst.
    destruct (match_total t c (PatternMatcher.case_sensitive self) Ht)
      as [-> _]. cbn [bind].
    destruct (count _ t c =? 0); [reflexivity|].
    destruct (count _ t c =? 1); [apply IH; assumption|].
    rewrite (IH ts Hts'). cbn [bind].
    destruct (matchb _ _ ts text); [reflexivity|].
    rewrite (IH (t :: ts) Hts). reflexivity.
Qed.

(** The tokens [lex] gives are well formed and spell the pattern. *)
Lemma lex_tokens s :
  forall ts, lex s = Lexed ts -> Forall wf_token ts /\ concat ts = s.
Proof.
  apply (lex_induction
           (fun s l => forall ts, l = Lexed ts ->
                         Forall wf_token ts /\ concat ts = s)).
  - intros ts H. inversion H. split; [constructor | reflexivity].
  - intros m r _ IH ts H. destruct (lex r) as [ts'| |]; try discriminate.
    inversion H; subst. destruct (IH _ eq_refl) as [F C]. split.
    + constructor; [apply wf_class | exact F].
    + cbn [concat]. rewrite C. simpl. rewrite <- app_assoc. reflexivity.
  - discriminate.
  - discriminate.
  - intros r IH ts H. destruct (lex r) as [ts'| |]; try discriminate.
    inversion H; subst. destruct (IH _ eq_refl) as [F C]. split.
    + constructor; [apply wf_any | exact F].
    + cbn [concat]. rewrite C. reflexivity.
  - intros r _ IH ts H. destruct (lex r) as [ts'| |]; try discriminate.
    inversion H; subst. destruct (IH _ eq_refl) as [F C]. split.
    + constructor; [apply wf_star | exact F].
    + cbn [concat]. rewrite C. reflexivity.
  - intros r _ IH ts H. destruct (lex r) as [ts'| |]; try discriminate.
    inversion H; subst. destruct (IH _ eq_refl) as [F C]. split.
    + constructor; [apply wf_dstar | exact F].
    + cbn [concat]. rewrite C. reflexivity.
  - discriminate.
  - intros c r Hc IH ts H. destruct (lex r) as [ts'| |]; try discriminate.
    inversion H; subst. destruct (IH _ eq_refl) as [F C]. split.
    + constructor; [|exact F]. unfold plain in Hc.
      apply negb_true_iff in Hc.
      apply orb_false_iff in Hc as [Hc H4].
      apply orb_false_iff in Hc as [Hc H3].
      apply orb_false_iff in Hc as [H1 H2].
      apply wf_literal; apply Ascii.eqb_neq; assumption.
    + cbn [concat]. rewrite C. reflexivity.
Qed.

(** ** The cache *)

Lemma key_eqb_eq a b : LRUCache.key_eqb a b = true -> a = b.
Proof.
  destruct a as [[p c] a], b as [[q d] b]. unfold LRUCache.key_eqb.
  intros H. apply andb_true_iff in H as [H H3].
  apply andb_true_iff in H as [H1 H2].
  apply str_eqb_eq in H1. apply Bool.eqb_prop in H2, H3. congruence.
Qed.

Lemma lookup_In k l v : LRUCache.lookup k l = Some v -> In (k, v) l.
Proof.
  induction l as [|[k' v'] l IH]; simpl; intros H; [discriminate|].
  destruct (LRUCache.key_eqb k k') eqn:E.
  - apply key_eqb_eq in E. inversion H; subst. left. reflexivity.
  - right. apply IH. exact H.
Qed.

Lemma remove_In k l e : In e (LRUCache.remove k l) -> In e l.
Proof. unfold LRUCache.remove. intros H. apply filter_In in H. tauto. Qed.

Lemma removelast_In {A} (l : list A) e : In e (removelast l) -> In e l.
Proof.
  induction l as [|x l IH]; simpl; [tauto|].
  destruct l as [|y l]; [simpl; tauto|].
  intros [H|H]; [left; exact H | right; apply IH; exact H].
Qed.

Lemma coherent_initial : coherent _PATTERN_CACHE.
Proof. intros pattern cs ap v H. destruct H. Qed.

Lemma coherent_getitem cache k v cache' :
  coherent cache ->
  LRUCache.__getitem__ cache k = Ret (v, cache') ->
  coherent cache' /\ In (k, v) (LRUCache.entries cache).
Proof.
  unfold LRUCache.__getitem__. intros Hc H.
  destruct (LRUCache.lookup k (LRUCache.entries cache)) as [v'|] eqn:E;
    [|discriminate].
  inversion H; subst. apply lookup_In in E. split; [|exact E].
  intros p cs ap w [Hw|Hw]; cbn [LRUCache.entries] in *.
  - inversion Hw; subst. apply Hc. exact E.
  - apply Hc. eapply remove_In. exact Hw.
Qed.

Lemma coherent_setitem cache pattern cs ap v :
  coherent cache ->
  PatternMatcher.__init__ pattern cs ap = Some (Ret v) ->
  coherent (LRUCache.__setitem__ cache (pattern, cs, ap) v).
Proof.
  intros Hc Hv p c a w Hw. unfold LRUCache.__setitem__ in Hw.
  cbn [LRUCache.entries] in Hw.
  assert (In (p, c, a, w)
            ((pattern, cs, ap, v)
             :: LRUCache.remove (pattern, cs, ap) (LRUCache.entries cache)))
    as [H|H].
  { destruct (_ <? _)%nat; [apply removelast_In|]; exact Hw. }
  - inversion H; subst. exact Hv.
  - apply Hc. eapply remove_In. exact H.
Qed.

Lemma getitem_raises cache k e :
  LRUCache.__getitem__ cache k = Raise e ->
  e = KeyError /\ LRUCache.lookup k (LRUCache.entries cache) = None.
Proof.
  unfold LRUCache.__getitem__.
  destruct (LRUCache.lookup k (LRUCache.entries cache)); [discriminate|].
  intros H. inversion H. split; reflexivity.
Qed.

(** With a coherent cache the answer is the one the constructor and the
    call give without any cache, and the cache stays coherent. *)
Lemma cached_match_uncached args name cache :
  coherent cache ->
  answer (cached_match args name cache) = uncached args name
  /\ forall r cache', cached_match args name cache = Some (r, cache') ->
       coherent cache'.
Proof.
  intros Hc. destruct args as [[pattern cs] ap].
  unfold cached_match, uncached.
  destruct (LRUCache.__getitem__ cache (pattern, cs, ap))
    as [[pat cache1]|e] eqn:G.
  - destruct (coherent_getitem _ _ _ _ Hc G) as [Hc1 Hin].
    rewrite (Hc _ _ _ _ Hin). split; [reflexivity|].
    intros r cache' H. inversion H; subst. exact Hc1.
  - destruct (getitem_raises _ _ _ G) as [-> _].
    destruct (PatternMatcher.__init__ pattern cs ap) as [[pat|e]|] eqn:I.
    + split; [reflexivity|]. intros r cache' H. inversion H; subst.
      apply coherent_setitem; assumption.
    + split; [reflexivity|]. intros r cache' H. inversion H; subst.
      exact Hc.
    + split; [reflexivity|]. discriminate.
Qed.

Lemma uncached_lex pattern cs ap name :
  uncached (pattern, cs, ap) name
  = match lex pattern with
    | Lexed ts => Some (Ret (matchb cs ap ts name))
    | LexError => Some (Raise ValueError)
    | LexOpen => None
    end.
Proof.
  unfold uncached. rewrite init_lex.
  destruct (lex pattern) as [ts| |] eqn:L; try reflexivity.
  unfold PatternMatcher.__call__. cbn [PatternMatcher.tokens].
  rewrite match_matchb by (apply (lex_tokens _ _ L)). reflexivity.
Qed.

(** The answer of [match] and [imatch] on a coherent cache, read off
    [lex] and [matchb]. *)
Lemma match_answer pattern name ap cache :
  coherent cache ->
  answer (match_ pattern name ap cache)
  = match lex pattern with
    | Lexed ts => Some (Ret (matchb true ap ts name))
    | LexError => Some (Raise ValueError)
    | LexOpen => None
    end.
Proof.
  intros Hc. rewrite match_unfold.
  rewrite (proj1 (cached_match_uncached _ name _ Hc)). apply uncached_lex.
Qed.

Lemma imatch_answer pattern name ap cache :
  coherent cache ->
  answer (imatch pattern name ap cache)
  = match lex pattern with
    | Lexed ts => Some (Ret (matchb false ap ts name))
    | LexError => Some (Raise ValueError)
    | LexOpen => None
    end.
Proof.
  intros Hc. rewrite imatch_unfold.
  rewrite (proj1 (cached_match_uncached _ name _ Hc)). apply uncached_lex.
Qed.

(** Every cache state that arises is coherent. *)
Lemma reachable_coherent cache : reachable cache -> coherent cache.
Proof.
  induction 1 as [|pattern name ap cache r cache' _ IH H
                  |pattern name ap cache r cache' _ IH H].
  - exact coherent_initial.
  - rewrite match_unfold in H.
    exact (proj2 (cached_match_uncached _ _ _ IH) _ _ H).
  - rewrite imatch_unfold in H.
    exact (proj2 (cached_match_uncached _ _ _ IH) _ _ H).
Qed.

(** ** Stars and the path separator *)

Lemma star_span self ts text :
  PatternMatcher._match self (lit "*" :: ts) text = Ret true ->
  (text = [] /\ PatternMatcher.accept_prefixes self = true)
  \/ exists span rest,
       text = span ++ rest /\ span <> [] /\ contains span "/" = false
       /\ PatternMatcher._match self ts rest = Ret true.
Proof.
  induction text as [|c text IH]; intros H.
  - left. split; [reflexivity|]. cbn in H. congruence.
  - right. cbn [PatternMatcher._match] in H. rewrite match_star in H.
    cbn [bind] in H. destruct (Ascii.eqb c "/") eqn:Ec; cbn in H;
      [discriminate|].
    destruct (PatternMatcher._match self ts text) as [b|e] eqn:M;
      cbn [bind] in H; [|discriminate].
    destruct b.
    + exists [c], text. repeat split; [discriminate | | exact M].
      rewrite contains_cons, Ec. reflexivity.
    + destruct (IH H) as [[-> Hap]|(span & rest & -> & Hs & Hc & Hm)].
      * destruct ts; cbn in M; congruence.
      * exists (c :: span), rest. repeat split; [discriminate | | exact Hm].
        rewrite contains_cons, Ec. exact Hc.
Qed.

(** C6: a [*] token never takes a ["/"], a [**] token may.  Whenever
    [_match] succeeds with a [*] token first, the characters that token
    took (a nonempty [span] of the text, unless the text was empty and
    prefixes are accepted) hold no ["/"] and the tokens after it match
    what is left.  And, from any coherent cache,
    [match("foo*.jpg", "foo/a.jpg")] is false while
    [match("foo**.jpg", "foo/a.jpg")] and [match("**", "foo/a.jpg")]
    are true. *)
Theorem star_never_crosses_separator :
  (forall self ts text,
      PatternMatcher._match self (lit "*" :: ts) text = Ret true ->
      (text = [] /\ PatternMatcher.accept_prefixes self = true)
      \/ exists span rest,
           text = span ++ rest /\ span <> [] /\ contains span "/" = false
           /\ PatternMatcher._match self ts rest = Ret true)
  /\ (forall cache, coherent cache ->
        answer (match_ (lit "foo*.jpg") (lit "foo/a.jpg") false cache)
        = Some (Ret false)
        /\ answer (match_ (lit "foo**.jpg") (lit "foo/a.jpg") false cache)
           = Some (Ret true)
        /\ answer (match_ (lit "**") (lit "foo/a.jpg") false cache)
           = Some (Ret true)).
Proof.
  split; [exact star_span|].
  intros cache Hc. rewrite !match_answer by exact Hc.
  repeat split; vm_compute; reflexivity.
Qed.

Lemma star_never_crosses_separator_witness :
  (exists span rest,
      lit "ab.py" = span ++ rest /\ span <> [] /\ contains span "/" = false
      /\ PatternMatcher._match (PatternMatcher.Build true false [])
           [lit "."; lit "p"; lit "y"] rest = Ret true)
  /\ answer (match_ (lit "foo*.jpg") (lit "foo/a.jpg") false _PATTERN_CACHE)
     = Some (Ret false).
Proof.
  split.
  - destruct (proj1 star_never_crosses_separator
                (PatternMatcher.Build true false [])
                [lit "."; lit "p"; lit "y"] (lit "ab.py") eq_refl)
      as [[H _]|H]; [discriminate H | exact H].
  - apply (proj2 star_never_crosses_separator _PATTERN_CACHE).
    intros pattern cs ap v [].
Defined.

(** ** Bracket classes *)

(** C10: a bracket class holds the characters written between the
    brackets and nothing else; a ["-"] is one of them, not a range.
    From any coherent cache, [match("[a-z]", name)] is true exactly
    when [name] is one of the one-character strings ["a"], ["-"] and
    ["z"]; so [match("[a-z]", "b")] is false and [match("[a-z]", "-")]
    is true. *)
Theorem class_is_literal_set :
  forall cache, coherent cache ->
    (forall name,
        answer (match_ (lit "[a-z]") name false cache)
        = Some (Ret (match name with
                     | [c] => Ascii.eqb c "a" || Ascii.eqb c "-"
                              || Ascii.eqb c "z"
                     | _ => false
                     end)))
    /\ answer (match_ (lit "[a-z]") (lit "b") false cache) = Some (Ret false)
    /\ answer (match_ (lit "[a-z]") (lit "-") false cache) = Some (Ret true).
Proof.
  intros cache Hc.
  assert (forall name,
             answer (match_ (lit "[a-z]") name false cache)
             = Some (Ret (match name with
                          | [c] => Ascii.eqb c "a" || Ascii.eqb c "-"
                                   || Ascii.eqb c "z"
                          | _ => false
                          end))) as G.
  { intros name. rewrite match_answer by exact Hc.
    change (lex (lit "[a-z]")) with (Lexed [ "[" :: lit "a-z" ++ ["]"] ]).
    cbv iota. do 2 f_equal.
    destruct name as [|c name]; [reflexivity|].
    cbn [matchb]. unfold count. rewrite match_class.
    unfold class_count. cbn [lit list_ascii_of_string].
    change (Ascii.eqb "a" "!") with false. cbv iota.
    rewrite !contains_cons, contains_nil, orb_false_r.
    rewrite (Ascii.eqb_sym "a" c), (Ascii.eqb_sym "-" c),
      (Ascii.eqb_sym "z" c).
    destruct (Ascii.eqb c "a"), (Ascii.eqb c "-"), (Ascii.eqb c "z");
      destruct name; reflexivity. }
  split; [exact G|]. rewrite !G. split; reflexivity.
Qed.

Lemma class_is_literal_set_witness :
  answer (match_ (lit "[a-z]") (lit "z") false _PATTERN_CACHE)
  = Some (Ret true).
Proof.
  apply (class_is_literal_set _PATTERN_CACHE).
  intros pattern cs ap v [].
Defined.

(** The test of a class token does not look at [case_sensitive]. *)
Lemma class_ignores_case_flag m c cs :
  _PatternMatcherToken.match_ ("[" :: m ++ ["]"]) c cs
  = _PatternMatcherToken.match_ ("[" :: m ++ ["]"]) c true.
Proof. rewrite !match_class. reflexivity. Qed.

(** C4: the source does not fold case in a bracket class.  The branch
    of [_PatternMatcherToken.match] for a class returns before
    [case_sensitive] is looked at, so a class token answers the same
    with either flag, and from any coherent cache
    [imatch("[a]", "A")] and [imatch("file.py[CO]", "file.pyc")] are
    both false, where the claim has them true. *)
Theorem imatch_class_not_case_folded :
  (forall m c cs,
      _PatternMatcherToken.match_ ("[" :: m ++ ["]"]) c cs
      = _PatternMatcherToken.match_ ("[" :: m ++ ["]"]) c true)
  /\ (forall cache, coherent cache ->
        answer (imatch (lit "[a]") (lit "A") false cache) = Some (Ret false)
        /\ answer (imatch (lit "file.py[CO]") (lit "file.pyc") false cache)
           = Some (Ret false)).
Proof.
  split; [exact class_ignores_case_flag|].
  intros cache Hc. rewrite !imatch_answer by exact Hc.
  split; vm_compute; reflexivity.
Qed.

Lemma imatch_class_not_case_folded_witness :
  answer (imatch (lit "[a]") (lit "A") false _PATTERN_CACHE)
  = Some (Ret false).
Proof.
  apply (proj2 imatch_class_not_case_folded _PATTERN_CACHE).
  intros pattern cs ap v [].
Defined.

(** ** Patterns of literal characters *)

Lemma plain_eqbs c :
  plain c = true ->
  Ascii.eqb c "[" = false /\ Ascii.eqb c "]" = false
  /\ Ascii.eqb c "?" = false /\ Ascii.eqb c "*" = false.
Proof.
  unfold plain. intros H. apply negb_true_iff in H.
  apply orb_false_iff in H as [H H4]. apply orb_false_iff in H as [H H3].
  apply orb_false_iff in H as [H1 H2]. tauto.
Qed.

Lemma lex_plain_app s r :
  forallb plain s = true ->
  lex (s ++ r) = fold_right cons_tok (lex r) (singles s).
Proof.
  induction s as [|c s IH]; intros H; [reflexivity|].
  cbn [forallb] in H. apply andb_true_iff in H as [Hc Hs].
  destruct (plain_eqbs c Hc) as (E1 & E2 & E3 & E4).
  cbn [app lex singles map fold_right]. rewrite E1, E2, E3, E4.
  rewrite (IH Hs). reflexivity.
Qed.

Lemma fold_cons_tok ts us :
  fold_right cons_tok (Lexed us) ts = Lexed (ts ++ us).
Proof.
  induction ts as [|t ts IH]; [reflexivity|].
  cbn [fold_right app]. rewrite IH. reflexivity.
Qed.

Lemma lex_plain s :
  forallb plain s = true -> lex s = Lexed (singles s).
Proof.
  intros H. rewrite <- (app_nil_r s) at 1. rewrite lex_plain_app by exact H.
  cbn [lex]. rewrite fold_cons_tok, app_nil_r. reflexivity.
Qed.

Lemma lex_plain_star s :
  forallb plain s = true ->
  lex (s ++ lit "*") = Lexed (singles s ++ [lit "*"]).
Proof.
  intros H. rewrite lex_plain_app by exact H.
  change (lex (lit "*")) with (Lexed [lit "*"]). apply fold_cons_tok.
Qed.

Lemma lex_star_plain s :
  forallb plain s = true ->
  lex (lit "*" ++ s) = Lexed (lit "*" :: singles s).
Proof.
  intros H. cbn [lit list_ascii_of_string app lex].
  change (Ascii.eqb "*" "[") with false.
  change (Ascii.eqb "*" "]") with false.
  change (Ascii.eqb "*" "?") with false.
  change (Ascii.eqb "*" "*") with true. cbv iota.
  destruct s as [|c s]; [reflexivity|].
  pose proof H as H'. cbn [forallb] in H'.
  apply andb_true_iff in H' as [Hc _].
  destruct (plain_eqbs c Hc) as (_ & _ & _ & E4). rewrite E4.
  rewrite (lex_plain _ H). reflexivity.
Qed.

Lemma lex_plain_dstar s :
  forallb plain s = true ->
  lex (s ++ lit "**") = Lexed (singles s ++ [lit "**"]).
Proof.
  intros H. rewrite lex_plain_app by exact H.
  change (lex (lit "**")) with (Lexed [lit "**"]). apply fold_cons_tok.
Qed.

Lemma lex_dstar_plain s :
  forallb plain s = true ->
  lex (lit "**" ++ s) = Lexed (lit "**" :: singles s).
Proof.
  intros H. cbn [lit list_ascii_of_string app lex].
  change (Ascii.eqb "*" "[") with false.
  change (Ascii.eqb "*" "]") with false.
  change (Ascii.eqb "*" "?") with false.
  change (Ascii.eqb "*" "*") with true. cbv iota.
  destruct s as [|c s]; [reflexivity|].
  pose proof H as H'. cbn [forallb] in H'.
  apply andb_true_iff in H' as [Hc _].
  destruct (plain_eqbs c Hc) as (_ & _ & _ & E4). rewrite E4.
  rewrite (lex_plain _ H). reflexivity.
Qed.

(** Without prefix acceptance every token takes at least one
    character: a text shorter than the token list never matches. *)
Lemma matchb_short cs text :
  forall ts, (List.length text < List.length ts)%nat ->
    matchb cs false ts text = false.
Proof.
  induction text as [|c text IH]; intros ts H.
  - destruct ts; [simpl in H; lia | reflexivity].
  - destruct ts as [|t ts]; [simpl in H; lia|].
    cbn [matchb]. cbn [List.length] in H.
    destruct (count cs t c =? 0); [reflexivity|].
    destruct (count cs t c =? 1); [apply IH; lia|].
    rewrite (IH ts) by lia. apply IH. cbn [List.length]. lia.
Qed.

Lemma singles_length s : List.length (singles s) = List.length s.
Proof. apply length_map. Qed.

(** C1: in the source a star cannot stand for the empty string.  When
    the text runs out while tokens remain, [_match] answers
    [accept_prefixes] whatever those tokens are, and on a count of 2 it
    always drops the current character, so a [*] or [**] token must
    take at least one character.  For every [s] of literal characters
    and from any coherent cache, [match(s + "*", s)] and
    [match("*" + s, s)] are both false without prefix acceptance, and
    so are they with [**]; the claim has them true. *)
Theorem star_needs_a_character :
  forall s, forallb plain s = true ->
    forall cache, coherent cache ->
      answer (match_ (s ++ lit "*") s false cache) = Some (Ret false)
      /\ answer (match_ (lit "*" ++ s) s false cache) = Some (Ret false)
      /\ answer (match_ (s ++ lit "**") s false cache) = Some (Ret false)
      /\ answer (match_ (lit "**" ++ s) s false cache) = Some (Ret false).
Proof.
  intros s Hs cache Hc. rewrite !match_answer by exact Hc.
  rewrite (lex_plain_star _ Hs), (lex_star_plain _ Hs),
    (lex_plain_dstar _ Hs), (lex_dstar_plain _ Hs).
  repeat split; (rewrite matchb_short; [reflexivity|]);
    rewrite ?length_app; cbn [List.length]; rewrite singles_length; lia.
Qed.

Lemma star_needs_a_character_witness :
  answer (match_ (lit "a*") (lit "a") false _PATTERN_CACHE) = Some (Ret false)
  /\ answer (match_ (lit "*a") (lit "a") false _PATTERN_CACHE)
     = Some (Ret false)
  /\ answer (match_ (lit "a**") (lit "a") false _PATTERN_CACHE)
     = Some (Ret false)
  /\ answer (match_ (lit "**a") (lit "a") false _PATTERN_CACHE)
     = Some (Ret false).
Proof.
  apply (star_needs_a_character (lit "a")).
  - reflexivity.
  - intros pattern cs ap v [].
Defined.

Lemma init_ret_lex pattern cs ap pm :
  PatternMatcher.__init__ pattern cs ap = Some (Ret pm) ->
  lex pattern = Lexed (PatternMatcher.tokens pm)
  /\ pm = PatternMatcher.Build cs ap (PatternMatcher.tokens pm).
Proof.
  rewrite init_lex. destruct (lex pattern); try discriminate.
  intros H. inversion H; subst. split; reflexivity.
Qed.

Lemma count_literal cs c : plain c = true -> count cs [c] c = 1.
Proof.
  intros H. destruct (plain_eqbs c H) as (E1 & _ & E3 & E4).
  unfold count. rewrite match_literal by (apply Ascii.eqb_neq; assumption).
  rewrite !Ascii.eqb_refl. destruct cs; reflexivity.
Qed.

Lemma matchb_self cs ap p :
  forallb plain p = true -> matchb cs ap (singles p) p = true.
Proof.
  induction p as [|c p IH]; intros H; [reflexivity|].
  cbn [forallb] in H. apply andb_true_iff in H as [Hc Hp].
  cbn [singles map matchb]. rewrite (count_literal cs c Hc).
  cbn. apply IH. exact Hp.
Qed.

(** A literal or class token answers 0 or 1. *)
Lemma count_single cs t c :
  wf_token t -> is_wildcard t = false -> 0 <= count cs t c <= 1.
Proof.
  intros H W. unfold count. destruct H; try discriminate W.
  - rewrite match_class. unfold class_count. destruct m as [|d m']; [lia|].
    destruct (Ascii.eqb d "!"); [destruct (contains m' c)
                                | destruct (contains (d :: m') c)]; lia.
  - rewrite match_literal by assumption.
    destruct cs; [destruct (Ascii.eqb c0 c)
                 | destruct (Ascii.eqb (lower_char c0) (lower_char c))]; lia.
Qed.

(** Literal and class tokens take one character each. *)
Lemma matchb_exact cs text :
  forall ts, Forall wf_token ts -> existsb is_wildcard ts = false ->
    matchb cs false ts text = true -> List.length text = List.length ts.
Proof.
  induction text as [|c text IH]; intros ts F W H.
  - destruct ts; [reflexivity | discriminate H].
  - destruct ts as [|t ts]; [discriminate H|].
    inversion F as [|? ? Ht Fts]; subst.
    cbn [existsb] in W. apply orb_false_iff in W as [Wt Wts].
    cbn [matchb] in H. pose proof (count_single cs t c Ht Wt) as Hk.
    destruct (Z.eqb_spec (count cs t c) 0); [discriminate H|].
    destruct (Z.eqb_spec (count cs t c) 1); [|lia].
    cbn [List.length]. f_equal. apply IH; assumption.
Qed.

Lemma wf_token_length t : wf_token t -> (1 <= List.length t)%nat.
Proof. intros H. destruct H; simpl; lia. Qed.

Lemma wf_class_length t :
  wf_token t -> is_class t = true -> (2 <= List.length t)%nat.
Proof.
  intros H C. destruct H; try discriminate C.
  - simpl. rewrite length_app. simpl. lia.
  - simpl in C. apply Ascii.eqb_eq in C. congruence.
Qed.

Lemma tokens_length ts :
  Forall wf_token ts ->
  (List.length ts <= List.length (concat ts))%nat
  /\ (existsb is_class ts = true ->
      (List.length ts < List.length (concat ts))%nat).
Proof.
  induction 1 as [|t ts Ht Fts [IH1 IH2]];
    [split; [simpl; lia | discriminate]|].
  cbn [concat List.length existsb]. rewrite length_app.
  pose proof (wf_token_length t Ht). split; [lia|].
  intros C. apply orb_true_iff in C as [C|C].
  - pose proof (wf_class_length t Ht C). lia.
  - specialize (IH2 C). lia.
Qed.

(** C8, as the code has it: a pattern of literal characters matches
    itself; a pattern that compiles to literal and class tokens only
    does not match itself with one more character added (no prefix
    acceptance), and does not match itself either as soon as it holds a
    bracket class, since a class token stands for one character and not
    for its own text. *)
Theorem literal_pattern_matches_itself :
  (forall p, forallb plain p = true ->
     forall cache, coherent cache ->
       answer (match_ p p false cache) = Some (Ret true))
  /\ (forall p pm,
        PatternMatcher.__init__ p true false = Some (Ret pm) ->
        existsb is_wildcard (PatternMatcher.tokens pm) = false ->
        forall cache, coherent cache ->
          (forall x, answer (match_ p (p ++ [x]) false cache)
                     = Some (Ret false))
          /\ (existsb is_class (PatternMatcher.tokens pm) = true ->
              answer (match_ p p false cache) = Some (Ret false))).
Proof.
  split.
  - intros p Hp cache Hc. rewrite match_answer by exact Hc.
    rewrite (lex_plain _ Hp). rewrite matchb_self by exact Hp. reflexivity.
  - intros p pm Hi W cache Hc.
    destruct (init_ret_lex _ _ _ _ Hi) as [L _].
    destruct (lex_tokens _ _ L) as [F C].
    destruct (tokens_length _ F) as [Hle Hlt]. rewrite C in Hle, Hlt.
    split.
    + intros x. rewrite match_answer by exact Hc. rewrite L.
      destruct (matchb true false (PatternMatcher.tokens pm) (p ++ [x]))
        eqn:M; [|reflexivity].
      apply (matchb_exact _ _ _ F W) in M.
      rewrite length_app in M. simpl in M. lia.
    + intros Cl. specialize (Hlt Cl).
      rewrite match_answer by exact Hc. rewrite L.
      destruct (matchb true false (PatternMatcher.tokens pm) p) eqn:M;
        [|reflexivity].
      apply (matchb_exact _ _ _ F W) in M. lia.
Qed.

Lemma literal_pattern_matches_itself_witness :
  answer (match_ (lit "file.py") (lit "file.py") false _PATTERN_CACHE)
  = Some (Ret true)
  /\ answer (match_ (lit "file.py[co]") (lit "file.py[co]" ++ ["x"]) false
               _PATTERN_CACHE) = Some (Ret false)
  /\ answer (match_ (lit "file.py[co]") (lit "file.py[co]") false
               _PATTERN_CACHE) = Some (Ret false).
Proof.
  assert (coherent _PATTERN_CACHE) as Hc by (intros pattern cs ap v []).
  split.
  - apply (proj1 literal_pattern_matches_itself (lit "file.py"));
      [reflexivity | exact Hc].
  - destruct (proj2 literal_pattern_matches_itself (lit "file.py[co]")
                (PatternMatcher.Build true false
                   (singles (lit "file.py") ++ [lit "[co]"]))
                eq_refl eq_refl _PATTERN_CACHE Hc) as [H1 H2].
    split; [exact (H1 "x") | apply H2; reflexivity].
Defined.

(** C8 as stated fails on a bracket class: the pattern ["[a]"] is built
    from a class only, and [match("[a]", "[a]")] is false. *)
Lemma class_pattern_does_not_match_itself :
  PatternMatcher.__init__ (lit "[a]") true false
  = Some (Ret (PatternMatcher.Build true false [lit "[a]"]))
  /\ existsb is_wildcard [lit "[a]"] = false
  /\ answer (match_ (lit "[a]") (lit "[a]") false _PATTERN_CACHE)
     = Some (Ret false).
Proof. repeat split. Qed.

(** ** Which patterns raise *)

Lemma lex_error_cons t l : lex_error (cons_tok t l) = lex_error l.
Proof. destruct l; reflexivity. Qed.

Lemma lex_ok_cons t l : lex_ok (cons_tok t l) = lex_ok l.
Proof. destruct l; reflexivity. Qed.

Lemma invalid_in_class m r k :
  contains m "]" = false ->
  invalid_from true k (m ++ "]" :: r) = invalid_from false O r.
Proof.
  revert k. induction m as [|c m IH]; intros k H.
  - reflexivity.
  - rewrite contains_cons in H. apply orb_false_iff in H as [Hc Hm].
    cbn [app invalid_from]. rewrite Hc. apply IH. exact Hm.
Qed.

Lemma invalid_open r k :
  contains r "]" = false -> invalid_from true k r = false.
Proof.
  revert k. induction r as [|c r IH]; intros k H; [reflexivity|].
  rewrite contains_cons in H. apply orb_false_iff in H as [Hc Hr].
  cbn [invalid_from]. rewrite Hc. apply IH. exact Hr.
Qed.

(** The scan raises exactly on the patterns the spec calls invalid. *)
Lemma lex_error_invalid s :
  forall run, run = O \/ star_run s = O ->
    invalid_from false run s = lex_error (lex s).
Proof.
  apply (lex_induction
           (fun s l => forall run, run = O \/ star_run s = O ->
                         invalid_from false run s = lex_error l)).
  - reflexivity.
  - intros m r Hm IH run _. rewrite lex_error_cons.
    cbn [invalid_from]. change (Ascii.eqb "[" "[") with true. cbv iota.
    rewrite invalid_in_class by exact Hm. apply IH. left. reflexivity.
  - intros r Hr run _. cbn [invalid_from].
    change (Ascii.eqb "[" "[") with true. cbv iota.
    apply invalid_open. exact Hr.
  - reflexivity.
  - intros r IH run _. rewrite lex_error_cons. cbn [invalid_from].
    change (Ascii.eqb "?" "[") with false.
    change (Ascii.eqb "?" "]") with false.
    change (Ascii.eqb "?" "*") with false. cbv iota.
    apply IH. left. reflexivity.
  - intros r Hr IH run [->|H]; [|cbn in H; discriminate].
    rewrite lex_error_cons. cbn [invalid_from].
    change (Ascii.eqb "*" "[") with false.
    change (Ascii.eqb "*" "]") with false.
    change (Ascii.eqb "*" "*") with true. cbv iota.
    cbn [Nat.leb]. apply IH. right. exact Hr.
  - intros r Hr IH run [->|H]; [|cbn in H; discriminate].
    rewrite lex_error_cons. cbn [invalid_from].
    change (Ascii.eqb "*" "[") with false.
    change (Ascii.eqb "*" "]") with false.
    change (Ascii.eqb "*" "*") with true. cbv iota.
    cbn [Nat.leb]. apply IH. right. exact Hr.
  - intros r run [->|H]; [reflexivity | cbn in H; discriminate].
  - intros c r Hc IH run _. rewrite lex_error_cons.
    destruct (plain_eqbs c Hc) as (E1 & E2 & E3 & E4).
    cbn [invalid_from]. rewrite E1, E2, E4. apply IH. left. reflexivity.
Qed.

Lemma lex_error_spec pattern :
  lex pattern = LexError <-> spec_invalid pattern = true.
Proof.
  unfold spec_invalid.
  rewrite (lex_error_invalid pattern O) by (left; reflexivity).
  destruct (lex pattern); simpl; split; congruence.
Qed.

Lemma open_bracket_class m r :
  open_bracket (m ++ "]" :: r) = open_bracket r.
Proof.
  induction m as [|c m IH].
  - cbn [app open_bracket]. reflexivity.
  - cbn [app open_bracket]. rewrite IH.
    rewrite contains_app, contains_cons.
    change (Ascii.eqb "]" "]") with true.
    rewrite orb_true_l, orb_true_r, andb_false_r. reflexivity.
Qed.

(** A pattern with a ["["] that is never closed does not lex to tokens. *)
Lemma lex_open_bracket s :
  open_bracket s = true -> lex_ok (lex s) = false.
Proof.
  apply (lex_induction
           (fun s l => open_bracket s = true -> lex_ok l = false)).
  - discriminate.
  - intros m r _ IH H. rewrite lex_ok_cons. apply IH.
    cbn [open_bracket] in H. rewrite open_bracket_class in H.
    rewrite contains_app, contains_cons in H.
    change (Ascii.eqb "]" "]") with true in H.
    rewrite orb_true_l, orb_true_r, andb_false_r in H. exact H.
  - reflexivity.
  - reflexivity.
  - intros r IH H. rewrite lex_ok_cons. apply IH. exact H.
  - intros r _ IH H. rewrite lex_ok_cons. apply IH. exact H.
  - intros r _ IH H. rewrite lex_ok_cons. apply IH. exact H.
  - reflexivity.
  - intros c r Hc IH H. rewrite lex_ok_cons. apply IH.
    destruct (plain_eqbs c Hc) as (E1 & _). cbn [open_bracket] in H.
    rewrite E1 in H. exact H.
Qed.

Lemma init_fuel_lex fuel pattern cs ap r :
  PatternMatcher.init_fuel fuel pattern cs ap = Some r ->
  match lex pattern with
  | Lexed ts => r = Ret (PatternMatcher.Build cs ap ts)
  | LexError => r = Raise ValueError
  | LexOpen => False
  end.
Proof.
  intros H. apply (proj1 (init_fuel_adequate pattern cs ap)) in H.
  rewrite init_lex in H. destruct (lex pattern); congruence.
Qed.

(** C2: the source does not handle a ["["] that is never closed.
    There [pattern.find("]", i)] is [-1], so [i] becomes [0] and the
    scan starts again from the first character, for ever.  A pattern
    with such a bracket never compiles to a matcher, whatever the
    fuel; when nothing before the bracket raises, the constructor does
    not return at all; for the pattern ["["] it does not return, and
    neither does [match("[", name)] from a coherent cache.  The claim
    has compilation end with one class token. *)
Theorem unclosed_bracket_never_compiles :
  (forall pattern, open_bracket pattern = true ->
     forall fuel cs ap pm,
       PatternMatcher.init_fuel fuel pattern cs ap <> Some (Ret pm))
  /\ (forall pattern, open_bracket pattern = true ->
        spec_invalid pattern = false ->
        forall fuel cs ap, PatternMatcher.init_fuel fuel pattern cs ap = None)
  /\ (forall fuel cs ap,
        PatternMatcher.init_fuel fuel (lit "[") cs ap = None)
  /\ (forall name ap cache, coherent cache ->
        match_ (lit "[") name ap cache = None).
Proof.
  assert (forall pattern, open_bracket pattern = true ->
            spec_invalid pattern = false ->
            forall fuel cs ap,
              PatternMatcher.init_fuel fuel pattern cs ap = None) as G.
  { intros pattern Ho Hs fuel cs ap.
    apply lex_open_bracket in Ho.
    destruct (lex pattern) as [ts| |] eqn:L; [discriminate Ho | |].
    - apply lex_error_spec in L. congruence.
    - unfold PatternMatcher.init_fuel.
      rewrite (init_loop_open _ L). reflexivity. }
  split; [|split; [exact G|split]].
  - intros pattern Ho fuel cs ap pm H.
    apply init_fuel_lex in H. apply lex_open_bracket in Ho.
    destruct (lex pattern); [discriminate Ho | discriminate H | exact H].
  - intros fuel cs ap. apply G; reflexivity.
  - intros name ap cache Hc.
    pose proof (match_answer (lit "[") name ap cache Hc) as A.
    change (lex (lit "[")) with LexOpen in A. cbv iota in A.
    destruct (match_ (lit "[") name ap cache); [discriminate A|reflexivity].
Qed.

Lemma unclosed_bracket_never_compiles_witness :
  PatternMatcher.init_fuel 50 (lit "file.py[co") true false
  <> Some (Ret (PatternMatcher.Build true false []))
  /\ PatternMatcher.init_fuel 50 (lit "file.py[co") true false = None
  /\ match_ (lit "[") (lit "a") false _PATTERN_CACHE = None.
Proof.
  split; [|split].
  - apply (proj1 unclosed_bracket_never_compiles (lit "file.py[co")).
    reflexivity.
  - apply (proj1 (proj2 unclosed_bracket_never_compiles)
             (lit "file.py[co")); reflexivity.
  - apply (proj2 (proj2 (proj2 unclosed_bracket_never_compiles))).
    intros pattern cs ap v [].
Defined.

Lemma call_total pattern cs ap pm name :
  PatternMatcher.__init__ pattern cs ap = Some (Ret pm) ->
  PatternMatcher.__call__ pm name
  = Ret (matchb cs ap (PatternMatcher.tokens pm) name).
Proof.
  intros H. destruct (init_ret_lex _ _ _ _ H) as [L E].
  unfold PatternMatcher.__call__. rewrite match_matchb.
  - rewrite E at 1 2. reflexivity.
  - apply (lex_tokens _ _ L).
Qed.

(** ** The recursion limit *)


(** One frame more than the text has characters is enough. *)
Lemma match_in_enough frames self :
  forall tokens text, (List.length text < frames)%nat ->
    PatternMatcher._match_in frames self tokens text
    = PatternMatcher._match self tokens text.
Proof.
  induction frames as [|f IH]; intros tokens text H; [lia|].
  destruct tokens as [|t ts]; [destruct text; reflexivity|].
  destruct text as [|c text]; [reflexivity|]. cbn [List.length] in H.
  cbn [PatternMatcher._match_in PatternMatcher._match].
  destruct f as [|f0]; [lia|]. cbn [PatternMatcher.in_frame].
  rewrite (IH ts text) by lia. rewrite (IH (t :: ts) text) by lia.
  reflexivity.
Qed.


Lemma call_in_enough frames pm name :
  (List.length name + 2 <= frames)%nat ->
  PatternMatcher.__call__in frames pm name = PatternMatcher.__call__ pm name.
Proof.
  intros H. destruct frames as [|f]; [lia|]. apply match_in_enough. lia.
Qed.





(** ** The cached entry points *)





(** With frames enough for the name, [match_in] and [imatch_in] are
    [match] and [imatch]. *)
Lemma match_in_enough_frames frames pattern name ap cache :
  (List.length name + 2 <= frames)%nat ->
  match_in frames pattern name ap cache = match_ pattern name ap cache
  /\ imatch_in frames pattern name ap cache = imatch pattern name ap cache.
Proof.
  intros H. unfold match_in, match_, imatch_in, imatch.
  destruct (LRUCache.__getitem__ cache (pattern, true, ap))
    as [[pat1 c1]|e1];
    destruct (LRUCache.__getitem__ cache (pattern, false, ap))
      as [[pat2 c2]|e2];
    destruct (PatternMatcher.__init__ pattern true ap) as [[q1|x1]|];
    destruct (PatternMatcher.__init__ pattern false ap) as [[q2|x2]|];
    rewrite ?(call_in_enough _ _ _ H); split; reflexivity.
Qed.

Lemma coherent_miss cache pattern cs ap e :
  coherent cache ->
  PatternMatcher.__init__ pattern cs ap = Some (Raise e) ->
  LRUCache.lookup (pattern, cs, ap) (LRUCache.entries cache) = None.
Proof.
  intros Hc Hi.
  destruct (LRUCache.lookup (pattern, cs, ap) (LRUCache.entries cache))
    as [v|] eqn:E; [|reflexivity].
  apply lookup_In in E. apply Hc in E. congruence.
Qed.

Lemma cached_match_raises pattern cs ap e name cache :
  PatternMatcher.__init__ pattern cs ap = Some (Raise e) ->
  LRUCache.lookup (pattern, cs, ap) (LRUCache.entries cache) = None ->
  cached_match (pattern, cs, ap) name cache = Some (Raise e, cache).
Proof.
  intros Hi Hl. unfold cached_match, LRUCache.__getitem__.
  rewrite Hl, Hi. reflexivity.
Qed.

(** C9: a failed compilation leaves the cache alone.  When the
    constructor raises [e] for the pattern and the key is not in the
    cache, [match] and [imatch] raise that same [e] and return the
    cache exactly as they got it, so no entry is stored and the same
    call made again raises again.  In a coherent cache the key of a
    pattern that does not compile is never present. *)
Theorem failed_compile_not_cached :
  forall pattern ap e name cache,
    (PatternMatcher.__init__ pattern true ap = Some (Raise e) ->
     LRUCache.lookup (pattern, true, ap) (LRUCache.entries cache) = None ->
     match_ pattern name ap cache = Some (Raise e, cache))
    /\ (PatternMatcher.__init__ pattern false ap = Some (Raise e) ->
        LRUCache.lookup (pattern, false, ap) (LRUCache.entries cache) = None ->
        imatch pattern name ap cache = Some (Raise e, cache))
    /\ (forall cs,
          PatternMatcher.__init__ pattern cs ap = Some (Raise e) ->
          coherent cache ->
          LRUCache.lookup (pattern, cs, ap) (LRUCache.entries cache) = None).
Proof.
  intros pattern ap e name cache. repeat split.
  - intros Hi Hl. rewrite match_unfold. apply cached_match_raises; assumption.
  - intros Hi Hl. rewrite imatch_unfold.
    apply cached_match_raises; assumption.
  - intros cs Hi Hc. eapply coherent_miss; eassumption.
Qed.

Lemma failed_compile_not_cached_witness :
  match_ (lit "a]") (lit "a") false _PATTERN_CACHE
  = Some (Raise ValueError, _PATTERN_CACHE)
  /\ imatch (lit "a***b") (lit "ab") false _PATTERN_CACHE
     = Some (Raise ValueError, _PATTERN_CACHE)
  /\ LRUCache.lookup (lit "a]", true, false)
       (LRUCache.entries _PATTERN_CACHE) = None.
Proof.
  split; [|split].
  - exact (proj1 (failed_compile_not_cached (lit "a]") false ValueError
                    (lit "a") _PATTERN_CACHE) eq_refl eq_refl).
  - exact (proj1 (proj2 (failed_compile_not_cached (lit "a***b") false
                           ValueError (lit "ab") _PATTERN_CACHE))
             eq_refl eq_refl).
  - apply (proj2 (proj2 (failed_compile_not_cached (lit "a]") false
                           ValueError (lit "a") _PATTERN_CACHE)) true).
    + reflexivity.
    + intros pattern cs ap v [].
Defined.

(** ** Prefix acceptance *)

Lemma matchb_prefix_mono cs n :
  forall ts, matchb cs false ts n = true -> matchb cs true ts n = true.
Proof.
  induction n as [|c n IH]; intros ts H.
  - destruct ts; [exact H | reflexivity].
  - destruct ts as [|t ts]; [exact H|]. cbn [matchb] in *.
    destruct (count cs t c =? 0); [exact H|].
    destruct (count cs t c =? 1); [apply IH; exact H|].
    apply orb_true_iff in H as [H|H]; apply orb_true_iff;
      [left | right]; apply IH; exact H.
Qed.

Lemma matchb_extension cs e n :
  e <> [] ->
  forall ts, matchb cs false ts (n ++ e) = true -> matchb cs true ts n = true.
Proof.
  intros He. induction n as [|c n IH]; intros ts H.
  - destruct ts as [|t ts]; [|reflexivity].
    destruct e; [congruence | discriminate H].
  - destruct ts as [|t ts]; [discriminate H|]. cbn [app matchb] in *.
    destruct (count cs t c =? 0); [exact H|].
    destruct (count cs t c =? 1); [apply IH; exact H|].
    apply orb_true_iff in H as [H|H]; apply orb_true_iff;
      [left | right]; apply IH; exact H.
Qed.

Lemma matchb_satisfy cs ts :
  ts <> [] -> Forall (satisfiable cs) ts ->
  exists e, e <> [] /\ matchb cs false ts e = true.
Proof.
  induction ts as [|t ts IH]; intros Hne F; [congruence|].
  inversion F as [|? ? [c Hc] Fts]; subst.
  destruct ts as [|t' ts'].
  - exists [c]. split; [discriminate|]. cbn [matchb].
    destruct (Z.eqb_spec (count cs t c) 0); [contradiction|].
    destruct (count cs t c =? 1); reflexivity.
  - destruct (IH ltac:(discriminate) Fts) as (e & He & Hm).
    exists (c :: e). split; [discriminate|]. cbn [matchb].
    destruct (Z.eqb_spec (count cs t c) 0); [contradiction|].
    cbn [matchb] in Hm.
    destruct (count cs t c =? 1); [exact Hm|]. rewrite Hm. reflexivity.
Qed.

Lemma matchb_prefix_complete cs n :
  forall ts, Forall (satisfiable cs) ts ->
    matchb cs true ts n = true ->
    matchb cs false ts n = true
    \/ exists e, e <> [] /\ matchb cs false ts (n ++ e) = true.
Proof.
  induction n as [|c n IH]; intros ts F H.
  - destruct ts as [|t ts]; [left; reflexivity|]. right.
    apply matchb_satisfy; [discriminate | exact F].
  - destruct ts as [|t ts]; [discriminate H|].
    inversion F as [|? ? Ht Fts]; subst. cbn [app matchb] in *.
    destruct (count cs t c =? 0); [discriminate H|].
    destruct (count cs t c =? 1); [apply IH; assumption|].
    apply orb_true_iff in H as [H|H].
    + destruct (IH ts Fts H) as [G|(e & He & G)].
      * left. rewrite G. reflexivity.
      * right. exists e. split; [exact He|]. rewrite G. reflexivity.
    + destruct (IH (t :: ts) F H) as [G|(e & He & G)].
      * left. rewrite G. apply orb_true_r.
      * right. exists e. split; [exact He|]. rewrite G. apply orb_true_r.
Qed.

(** C5, as the code has it: prefix acceptance accepts every potential
    match, and possibly more.  For a pattern that compiles, if
    [match(p, n)] is true or [match(p, n + e)] is true for some
    nonempty [e], then [match(p, n, accept_prefix=True)] is true.  The
    converse holds when every token of the pattern is satisfied by at
    least one character; it can fail otherwise, because the text
    running out is accepted whatever tokens remain. *)
Theorem prefix_mode_accepts_potential_matches :
  forall pattern pm,
    PatternMatcher.__init__ pattern true true = Some (Ret pm) ->
    forall n cache, coherent cache ->
      ((answer (match_ pattern n false cache) = Some (Ret true)
        \/ exists e, e <> []
             /\ answer (match_ pattern (n ++ e) false cache)
                = Some (Ret true)) ->
       answer (match_ pattern n true cache) = Some (Ret true))
      /\ (Forall (satisfiable true) (PatternMatcher.tokens pm) ->
          answer (match_ pattern n true cache) = Some (Ret true) ->
          answer (match_ pattern n false cache) = Some (Ret true)
          \/ exists e, e <> []
               /\ answer (match_ pattern (n ++ e) false cache)
                  = Some (Ret true)).
Proof.
  intros pattern pm Hi n cache Hc.
  destruct (init_ret_lex _ _ _ _ Hi) as [L _].
  assert (forall name ap,
             answer (match_ pattern name ap cache)
             = Some (Ret (matchb true ap (PatternMatcher.tokens pm) name)))
    as A.
  { intros name ap. rewrite match_answer by exact Hc. rewrite L.
    reflexivity. }
  split.
  - intros [H|(e & He & H)]; rewrite A in H |- *; injection H as H';
      do 2 f_equal.
    + apply matchb_prefix_mono. exact H'.
    + apply (matchb_extension true e n He). exact H'.
  - intros F H. rewrite A in H. injection H as H'.
    destruct (matchb_prefix_complete true n _ F H') as [G|(e & He & G)].
    + left. rewrite A, G. reflexivity.
    + right. exists e. split; [exact He|]. rewrite A, G. reflexivity.
Qed.

Lemma prefix_mode_accepts_potential_matches_witness :
  answer (match_ (lit "*.py") (lit "file") true _PATTERN_CACHE)
  = Some (Ret true)
  /\ (answer (match_ (lit "*.py") (lit "file") false _PATTERN_CACHE)
      = Some (Ret true)
      \/ exists e, e <> []
           /\ answer (match_ (lit "*.py") (lit "file" ++ e) false
                        _PATTERN_CACHE) = Some (Ret true)).
Proof.
  assert (coherent _PATTERN_CACHE) as Hc by (intros pattern cs ap v []).
  pose proof (prefix_mode_accepts_potential_matches (lit "*.py") _ eq_refl
                (lit "file") _PATTERN_CACHE Hc) as [H1 H2].
  assert (answer (match_ (lit "*.py") (lit "file") true _PATTERN_CACHE)
          = Some (Ret true)) as H.
  { apply H1. right. exists (lit ".py").
    split; [discriminate | reflexivity]. }
  split; [exact H|]. apply H2; [|exact H].
  repeat constructor.
  - exists "a". discriminate.
  - exists ".". discriminate.
  - exists "p". discriminate.
  - exists "y". discriminate.
Defined.

(** C5 as stated fails on a pattern with an empty class: in prefix
    mode [match("[]", "")] is true, yet it is false without prefix
    acceptance and no text at all matches ["[]"]. *)
Lemma prefix_mode_accepts_unsatisfiable :
  ~ (answer (match_ (lit "[]") (lit "") true _PATTERN_CACHE)
     = Some (Ret true)
     <-> (answer (match_ (lit "[]") (lit "") false _PATTERN_CACHE)
          = Some (Ret true)
          \/ exists e, e <> []
               /\ answer (match_ (lit "[]") (lit "" ++ e) false
                            _PATTERN_CACHE) = Some (Ret true))).
Proof.
  intros [H _]. destruct (H eq_refl) as [G|(e & He & G)].
  - discriminate G.
  - rewrite match_answer in G by exact coherent_initial.
    destruct e as [|c e]; [congruence|]. discriminate G.
Qed.

(** * Further properties of the module *)

(** ** What the constructor builds *)

(** X1: the matcher of a pattern that compiles keeps the two flags it
    was given, and its tokens, read one after the other, spell the
    pattern again; each token is a bracket class, [?], [*], [**] or one
    other character. *)
Theorem compiled_tokens_spell_pattern :
  forall pattern cs ap pm,
    PatternMatcher.__init__ pattern cs ap = Some (Ret pm) ->
    concat (PatternMatcher.tokens pm) = pattern
    /\ Forall wf_token (PatternMatcher.tokens pm)
    /\ PatternMatcher.case_sensitive pm = cs
    /\ PatternMatcher.accept_prefixes pm = ap.
Proof.
  intros pattern cs ap pm H. destruct (init_ret_lex _ _ _ _ H) as [L E].
  destruct (lex_tokens _ _ L) as [F C].
  repeat split; [exact C | exact F | rewrite E | rewrite E]; reflexivity.
Qed.

Lemma compiled_tokens_spell_pattern_witness :
  concat [lit "f"; lit "[co]"; lit "**"; lit "?"] = lit "f[co]**?"
  /\ Forall wf_token [lit "f"; lit "[co]"; lit "**"; lit "?"].
Proof.
  destruct (compiled_tokens_spell_pattern (lit "f[co]**?") true false
              (PatternMatcher.Build true false
                 [lit "f"; lit "[co]"; lit "**"; lit "?"]) eq_refl)
    as (C & F & _).
  split; [exact C | exact F].
Defined.

Lemma lex_open_inv s : lex s = LexOpen -> open_bracket s = true.
Proof.
  apply (lex_induction (fun s l => l = LexOpen -> open_bracket s = true)).
  - discriminate.
  - intros m r _ IH H. cbn [open_bracket]. rewrite open_bracket_class.
    rewrite IH; [apply orb_true_r|]. destruct (lex r); try discriminate H.
    reflexivity.
  - intros r Hr _. cbn [open_bracket]. rewrite Hr. reflexivity.
  - discriminate.
  - intros r IH H. cbn [open_bracket].
    rewrite IH; [apply orb_true_r|]. destruct (lex r); try discriminate H.
    reflexivity.
  - intros r _ IH H. cbn [open_bracket].
    rewrite IH; [apply orb_true_r|]. destruct (lex r); try discriminate H.
    reflexivity.
  - intros r _ IH H. cbn [open_bracket].
    rewrite IH; [rewrite !orb_true_r; reflexivity|].
    destruct (lex r); try discriminate H. reflexivity.
  - discriminate.
  - intros c r _ IH H. cbn [open_bracket].
    rewrite IH; [apply orb_true_r|]. destruct (lex r); try discriminate H.
    reflexivity.
Qed.

(** X2: what the constructor does is decided by two readings of the
    pattern.  It returns a matcher exactly when the pattern is not
    invalid and has no ["["] left unclosed; it does not return exactly
    when the pattern is not invalid and has such a bracket; in the
    remaining case it raises [ValueError]. *)
Theorem constructor_outcome :
  forall pattern cs ap,
    ((exists pm, PatternMatcher.__init__ pattern cs ap = Some (Ret pm))
     <-> spec_invalid pattern = false /\ open_bracket pattern = false)
    /\ (PatternMatcher.__init__ pattern cs ap = None
        <-> spec_invalid pattern = false /\ open_bracket pattern = true)
    /\ (PatternMatcher.__init__ pattern cs ap = Some (Raise ValueError)
        <-> spec_invalid pattern = true).
Proof.
  intros pattern cs ap. rewrite init_lex.
  pose proof (lex_error_spec pattern) as He.
  pose proof (lex_open_bracket pattern) as Ho.
  pose proof (lex_open_inv pattern) as Hi.
  destruct (lex pattern) as [ts| |] eqn:L.
  - assert (spec_invalid pattern = false) as Hs.
    { destruct (spec_invalid pattern); [|reflexivity].
      destruct He as [_ He]. discriminate (He eq_refl). }
    assert (open_bracket pattern = false) as Hb.
    { destruct (open_bracket pattern); [|reflexivity].
      discriminate (Ho eq_refl). }
    rewrite Hs, Hb. split; [|split]; split.
    + intros _. split; reflexivity.
    + intros _. eexists. reflexivity.
    + discriminate.
    + intros [_ G]. discriminate G.
    + discriminate.
    + discriminate.
  - destruct He as [He _]. rewrite (He eq_refl). split; [|split]; split.
    + intros [pm G]. discriminate G.
    + intros [G _]. discriminate G.
    + discriminate.
    + intros [G _]. discriminate G.
    + reflexivity.
    + reflexivity.
  - assert (spec_invalid pattern = false) as Hs.
    { destruct (spec_invalid pattern); [|reflexivity].
      destruct He as [_ He]. discriminate (He eq_refl). }
    rewrite Hs, (Hi eq_refl). split; [|split]; split.
    + intros [pm G]. discriminate G.
    + intros [_ G]. discriminate G.
    + intros _. split; reflexivity.
    + reflexivity.
    + discriminate.
    + discriminate.
Qed.

Lemma constructor_outcome_witness :
  (exists pm,
      PatternMatcher.__init__ (lit "*.py") true false = Some (Ret pm))
  /\ PatternMatcher.__init__ (lit "a[b") true false = None
  /\ PatternMatcher.__init__ (lit "a]b") true false = Some (Raise ValueError).
Proof.
  split; [|split].
  - apply (proj1 (constructor_outcome (lit "*.py") true false)).
    split; reflexivity.
  - apply (proj1 (proj2 (constructor_outcome (lit "a[b") true false))).
    split; reflexivity.
  - apply (proj2 (proj2 (constructor_outcome (lit "a]b") true false))).
    reflexivity.
Defined.

(** ** Patterns without stars *)

Lemma str_eqb_cons c n d p :
  str_eqb (c :: n) (d :: p) = Ascii.eqb c d && str_eqb n p.
Proof.
  destruct (Ascii.eqb c d) eqn:E.
  - apply Ascii.eqb_eq in E. subst d. cbn [andb].
    destruct (str_eqb n p) eqn:F.
    + apply str_eqb_eq in F. subst. apply str_eqb_refl.
    + apply str_eqb_neq. intros G. inversion G; subst.
      rewrite str_eqb_refl in F. discriminate.
  - apply str_eqb_neq. intros G. inversion G; subst.
    rewrite Ascii.eqb_refl in E. discriminate.
Qed.

Lemma count_plain cs d c :
  plain d = true ->
  count cs [d] c
  = if (if cs then Ascii.eqb d c
        else Ascii.eqb (lower_char d) (lower_char c))
    then 1 else 0.
Proof.
  intros H. destruct (plain_eqbs d H) as (E1 & _ & E3 & E4).
  unfold count. rewrite match_literal by (apply Ascii.eqb_neq; assumption).
  destruct cs; reflexivity.
Qed.

Lemma matchb_literal_exact p :
  forallb plain p = true ->
  forall n, matchb true false (singles p) n = str_eqb n p.
Proof.
  induction p as [|d p IH]; intros H n.
  - destruct n; reflexivity.
  - cbn [forallb] in H. apply andb_true_iff in H as [Hd Hp].
    destruct n as [|c n]; [reflexivity|].
    cbn [singles map matchb]. rewrite (count_plain true d c Hd).
    rewrite str_eqb_cons, (Ascii.eqb_sym c d).
    destruct (Ascii.eqb d c); [|reflexivity]. cbn. apply IH. exact Hp.
Qed.

Lemma matchb_literal_fold p :
  forallb plain p = true ->
  forall n, matchb false false (singles p) n = same_folded n p.
Proof.
  induction p as [|d p IH]; intros H n.
  - destruct n; reflexivity.
  - cbn [forallb] in H. apply andb_true_iff in H as [Hd Hp].
    destruct n as [|c n]; [reflexivity|].
    cbn [singles map matchb same_folded]. rewrite (count_plain false d c Hd).
    rewrite (Ascii.eqb_sym (lower_char c) (lower_char d)).
    destruct (Ascii.eqb (lower_char d) (lower_char c)); [|reflexivity].
    cbn. apply IH. exact Hp.
Qed.

Lemma matchb_literal_prefix p :
  forallb plain p = true ->
  forall n, matchb true true (singles p) n = is_prefix n p.
Proof.
  induction p as [|d p IH]; intros H n.
  - destruct n; reflexivity.
  - cbn [forallb] in H. apply andb_true_iff in H as [Hd Hp].
    destruct n as [|c n]; [reflexivity|].
    cbn [singles map matchb is_prefix]. rewrite (count_plain true d c Hd).
    rewrite (Ascii.eqb_sym c d).
    destruct (Ascii.eqb d c); [|reflexivity]. cbn. apply IH. exact Hp.
Qed.

(** X3: a pattern of literal characters (none of ["["], ["]"], ["?"],
    ["*"]) matches exactly itself; with [imatch] it matches exactly the
    names of the same length whose characters, one by one, have the
    same [lower()] as the pattern's; and with prefix acceptance [match]
    accepts exactly the prefixes of the pattern. *)
Theorem literal_pattern_matches_exactly :
  forall p, forallb plain p = true ->
    forall n cache, coherent cache ->
      answer (match_ p n false cache) = Some (Ret (str_eqb n p))
      /\ answer (imatch p n false cache) = Some (Ret (same_folded n p))
      /\ answer (match_ p n true cache) = Some (Ret (is_prefix n p)).
Proof.
  intros p Hp n cache Hc.
  rewrite !match_answer, imatch_answer by exact Hc.
  rewrite (lex_plain _ Hp).
  rewrite (matchb_literal_exact p Hp), (matchb_literal_fold p Hp),
    (matchb_literal_prefix p Hp).
  repeat split.
Qed.

Lemma literal_pattern_matches_exactly_witness :
  answer (match_ (lit "file.py") (lit "file.pyc") false _PATTERN_CACHE)
  = Some (Ret false)
  /\ answer (imatch (lit "File.py") (lit "FILE.PY") false _PATTERN_CACHE)
     = Some (Ret true)
  /\ answer (match_ (lit "file.py") (lit "fil") true _PATTERN_CACHE)
     = Some (Ret true).
Proof.
  assert (coherent _PATTERN_CACHE) as Hc by (intros pattern cs ap v []).
  split; [|split].
  - apply (literal_pattern_matches_exactly (lit "file.py") eq_refl
             (lit "file.pyc") _PATTERN_CACHE Hc).
  - apply (literal_pattern_matches_exactly (lit "File.py") eq_refl
             (lit "FILE.PY") _PATTERN_CACHE Hc).
  - apply (literal_pattern_matches_exactly (lit "file.py") eq_refl
             (lit "fil") _PATTERN_CACHE Hc).
Defined.

Lemma lex_qmarks k : lex (repeat "?" k) = Lexed (repeat (lit "?") k).
Proof.
  induction k as [|k IH]; [reflexivity|].
  cbn [repeat lex]. change (Ascii.eqb "?" "[") with false.
  change (Ascii.eqb "?" "]") with false.
  change (Ascii.eqb "?" "?") with true. cbv iota. rewrite IH. reflexivity.
Qed.

Lemma matchb_qmarks cs ap k :
  forall n,
    matchb cs ap (repeat (lit "?") k) n
    = if ap then (List.length n <=? k)%nat else (List.length n =? k)%nat.
Proof.
  induction k as [|k IH]; intros n.
  - destruct n; destruct ap; reflexivity.
  - destruct n as [|c n]; [destruct ap; reflexivity|].
    cbn [repeat matchb List.length]. unfold count. rewrite match_qmark.
    cbn. apply IH.
Qed.

(** X4: a pattern of [k] question marks matches exactly the names of
    [k] characters, whatever the characters are (a ["/"] too); with
    prefix acceptance it matches the names of at most [k] characters. *)
Theorem question_marks_count_characters :
  forall k n cache, coherent cache ->
    answer (match_ (repeat "?" k) n false cache)
    = Some (Ret (List.length n =? k)%nat)
    /\ answer (match_ (repeat "?" k) n true cache)
       = Some (Ret (List.length n <=? k)%nat).
Proof.
  intros k n cache Hc. rewrite !match_answer by exact Hc.
  rewrite lex_qmarks, !matchb_qmarks. split; reflexivity.
Qed.

Lemma question_marks_count_characters_witness :
  answer (match_ (lit "???") (lit "a/b") false _PATTERN_CACHE)
  = Some (Ret true)
  /\ answer (match_ (lit "???") (lit "ab") true _PATTERN_CACHE)
     = Some (Ret true).
Proof.
  assert (coherent _PATTERN_CACHE) as Hc by (intros pattern cs ap v []).
  split.
  - apply (question_marks_count_characters 3 (lit "a/b") _PATTERN_CACHE Hc).
  - apply (question_marks_count_characters 3 (lit "ab") _PATTERN_CACHE Hc).
Defined.

(** ** Bracket classes in general *)

Lemma split_class_closed seq r :
  contains seq "]" = false ->
  split_class (seq ++ "]" :: r) = Some (seq, r).
Proof.
  induction seq as [|c seq IH]; intros H; [reflexivity|].
  rewrite contains_cons in H. apply orb_false_iff in H as [Hc Hs].
  cbn [app split_class]. rewrite Hc, (IH Hs). reflexivity.
Qed.

Lemma lex_one_class seq :
  contains seq "]" = false ->
  lex ("[" :: seq ++ ["]"]) = Lexed ["[" :: seq ++ ["]"]].
Proof.
  intros H. cbn [lex]. change (Ascii.eqb "[" "[") with true. cbv iota.
  rewrite lex_class_split, (split_class_closed seq [] H). reflexivity.
Qed.

Lemma matchb_one_token cs t n :
  0 <= count cs t (hd "a" n) <= 1 ->
  matchb cs false [t] n
  = match n with
    | [c] => count cs t c =? 1
    | _ => false
    end.
Proof.
  destruct n as [|c [|d n]]; [reflexivity | |]; cbn [hd matchb]; intros H.
  - destruct (Z.eqb_spec (count cs t c) 0) as [E|E];
      [rewrite E; reflexivity|].
    destruct (Z.eqb_spec (count cs t c) 1); [reflexivity | lia].
  - destruct (Z.eqb_spec (count cs t c) 0); [reflexivity|].
    destruct (Z.eqb_spec (count cs t c) 1); [reflexivity | lia].
Qed.

(** X5: a bracket class matches one character.  For a [seq] without
    ["]"], the pattern ["[" + seq + "]"] matches exactly the names of
    one character that occurs in [seq], unless [seq] begins with ["!"];
    and ["[!" + seq + "]"] matches exactly the names of one character
    that does not occur in [seq].  So ["[]"] matches no name and
    ["[!]"] every name of one character. *)
Theorem class_matches_one_member :
  forall seq, contains seq "]" = false ->
    forall n cache, coherent cache ->
      (hd_error seq <> Some "!" ->
       answer (match_ ("[" :: seq ++ ["]"]) n false cache)
       = Some (Ret (match n with
                    | [c] => contains seq c
                    | _ => false
                    end)))
      /\ answer (match_ ("[" :: "!" :: seq ++ ["]"]) n false cache)
         = Some (Ret (match n with
                      | [c] => negb (contains seq c)
                      | _ => false
                      end)).
Proof.
  intros seq Hs n cache Hc. split.
  - intros Hh. rewrite match_answer by exact Hc.
    rewrite (lex_one_class seq Hs). do 2 f_equal.
    assert (forall c, count true ("[" :: seq ++ ["]"]) c
                      = if contains seq c then 1 else 0) as K.
    { intros c. unfold count. rewrite match_class. unfold class_count.
      destruct seq as [|d seq']; [reflexivity|].
      destruct (Ascii.eqb d "!") eqn:E; [|reflexivity].
      apply Ascii.eqb_eq in E. subst d. exfalso. apply Hh. reflexivity. }
    rewrite matchb_one_token.
    + destruct n as [|c [|d n]]; try reflexivity.
      rewrite K. destruct (contains seq c); reflexivity.
    + rewrite K. destruct (contains seq (hd "a" n)); lia.
  - rewrite match_answer by exact Hc.
    change ("[" :: "!" :: seq ++ ["]"]) with ("[" :: ("!" :: seq) ++ ["]"]).
    rewrite lex_one_class
      by (rewrite contains_cons; change (Ascii.eqb "!" "]") with false;
          exact Hs).
    do 2 f_equal.
    assert (forall c, count true ("[" :: ("!" :: seq) ++ ["]"]) c
                      = if contains seq c then 0 else 1) as K.
    { intros c. unfold count. rewrite match_class. reflexivity. }
    rewrite matchb_one_token.
    + destruct n as [|c [|d n]]; try reflexivity.
      rewrite K. destruct (contains seq c); reflexivity.
    + rewrite K. destruct (contains seq (hd "a" n)); lia.
Qed.

Lemma class_matches_one_member_witness :
  answer (match_ (lit "[co]") (lit "o") false _PATTERN_CACHE)
  = Some (Ret true)
  /\ answer (match_ (lit "[!co]") (lit "o") false _PATTERN_CACHE)
     = Some (Ret false).
Proof.
  assert (coherent _PATTERN_CACHE) as Hc by (intros pattern cs ap v []).
  split.
  - apply (proj1 (class_matches_one_member (lit "co") eq_refl (lit "o")
                    _PATTERN_CACHE Hc)).
    discriminate.
  - apply (proj2 (class_matches_one_member (lit "co") eq_refl (lit "o")
                    _PATTERN_CACHE Hc)).
Defined.

(** ** Empty names, empty patterns, lengths *)

Lemma concat_nil_tokens ts :
  Forall wf_token ts -> concat ts = [] -> ts = [].
Proof.
  intros F H. destruct ts as [|t ts]; [reflexivity|].
  inversion F as [|? ? Ht _]; subst. pose proof (wf_token_length t Ht).
  cbn [concat] in H. apply (f_equal (@List.length ascii)) in H.
  rewrite length_app in H. simpl in H. lia.
Qed.

(** X6: the empty name and the empty pattern.  For a pattern that
    compiles, the empty name is always accepted with prefix acceptance,
    and without it only by the empty pattern; the empty pattern accepts
    the empty name and no other, in either mode. *)
Theorem empty_name_and_empty_pattern :
  forall pattern pm,
    PatternMatcher.__init__ pattern true false = Some (Ret pm) ->
    forall cache, coherent cache ->
      answer (match_ pattern [] true cache) = Some (Ret true)
      /\ answer (match_ pattern [] false cache)
         = Some (Ret (str_eqb pattern []))
      /\ forall n ap,
           answer (match_ [] n ap cache) = Some (Ret (str_eqb n [])).
Proof.
  intros pattern pm Hi cache Hc.
  destruct (init_ret_lex _ _ _ _ Hi) as [L _].
  destruct (lex_tokens _ _ L) as [F C].
  rewrite !match_answer by exact Hc. rewrite L. split; [|split].
  - destruct (PatternMatcher.tokens pm); reflexivity.
  - do 2 f_equal. destruct (PatternMatcher.tokens pm) as [|t ts] eqn:T.
    + cbn in C. subst pattern. reflexivity.
    + cbn [matchb]. symmetry. apply str_eqb_neq. intros E.
      rewrite E in C. apply (concat_nil_tokens _ F) in C. discriminate C.
  - intros n ap. rewrite match_answer by exact Hc.
    destruct n; reflexivity.
Qed.

Lemma empty_name_and_empty_pattern_witness :
  answer (match_ (lit "*.py") [] true _PATTERN_CACHE) = Some (Ret true)
  /\ answer (match_ (lit "*.py") [] false _PATTERN_CACHE) = Some (Ret false).
Proof.
  assert (coherent _PATTERN_CACHE) as Hc by (intros pattern cs ap v []).
  destruct (empty_name_and_empty_pattern (lit "*.py") _ eq_refl
              _PATTERN_CACHE Hc) as (H1 & H2 & _).
  split; [exact H1 | exact H2].
Defined.

Lemma count_no_star cs t c :
  wf_token t -> is_star t = false -> 0 <= count cs t c <= 1.
Proof.
  intros H S. destruct (str_eqb t (lit "?")) eqn:Q.
  - apply str_eqb_eq in Q. subst t. unfold count. rewrite match_qmark. lia.
  - apply count_single; [exact H|]. unfold is_wildcard. rewrite Q.
    exact S.
Qed.

Lemma matchb_star_free cs n :
  forall ts, Forall wf_token ts -> existsb is_star ts = false ->
    matchb cs false ts n = true -> List.length n = List.length ts.
Proof.
  induction n as [|c n IH]; intros ts F S H.
  - destruct ts; [reflexivity | discriminate H].
  - destruct ts as [|t ts]; [discriminate H|].
    inversion F as [|? ? Ht Fts]; subst.
    cbn [existsb] in S. apply orb_false_iff in S as [St Sts].
    cbn [matchb] in H. pose proof (count_no_star cs t c Ht St) as Hk.
    destruct (Z.eqb_spec (count cs t c) 0); [discriminate H|].
    destruct (Z.eqb_spec (count cs t c) 1); [|lia].
    cbn [List.length]. f_equal. apply IH; assumption.
Qed.

(** X7: without prefix acceptance every token takes at least one
    character and every token but a star exactly one.  A name that
    matches has at least as many characters as the pattern has tokens;
    if the pattern has no star token the name has exactly that many,
    so it is never longer than the pattern. *)
Theorem match_fixes_name_length :
  forall pattern pm,
    PatternMatcher.__init__ pattern true false = Some (Ret pm) ->
    forall n cache, coherent cache ->
      answer (match_ pattern n false cache) = Some (Ret true) ->
      (List.length (PatternMatcher.tokens pm) <= List.length n)%nat
      /\ (existsb is_star (PatternMatcher.tokens pm) = false ->
          List.length n = List.length (PatternMatcher.tokens pm)
          /\ (List.length n <= List.length pattern)%nat).
Proof.
  intros pattern pm Hi n cache Hc H.
  destruct (init_ret_lex _ _ _ _ Hi) as [L _].
  destruct (lex_tokens _ _ L) as [F C].
  rewrite match_answer in H by exact Hc. rewrite L in H.
  injection H as H. split.
  - destruct (le_lt_dec (List.length (PatternMatcher.tokens pm))
                (List.length n)) as [G|G]; [exact G|].
    rewrite (matchb_short true n _ G) in H. discriminate H.
  - intros S. pose proof (matchb_star_free true n _ F S H) as E.
    split; [exact E|]. rewrite E.
    pose proof (proj1 (tokens_length _ F)) as T. rewrite C in T. exact T.
Qed.

Lemma match_fixes_name_length_witness :
  (4 <= List.length (lit "a.py"))%nat
  /\ (List.length (lit "xc") = 2%nat
      /\ (List.length (lit "xc") <= List.length (lit "?[co]"))%nat).
Proof.
  assert (coherent _PATTERN_CACHE) as Hc by (intros pattern cs ap v []).
  split.
  - exact (proj1 (match_fixes_name_length (lit "*.py")
                    (PatternMatcher.Build true false
                       [lit "*"; lit "."; lit "p"; lit "y"])
                    eq_refl (lit "a.py") _PATTERN_CACHE Hc eq_refl)).
  - exact (proj2 (match_fixes_name_length (lit "?[co]")
                    (PatternMatcher.Build true false [lit "?"; lit "[co]"])
                    eq_refl (lit "xc") _PATTERN_CACHE Hc eq_refl) eq_refl).
Defined.

(** ** A star in front of a literal suffix *)

Lemma count_star cs c :
  count cs (lit "*") c = if negb (Ascii.eqb c "/") then 2 else 0.
Proof. reflexivity. Qed.

Lemma count_dstar cs c : count cs (lit "**") c = 2.
Proof. reflexivity. Qed.

Lemma matchb_star_split cs ts n :
  matchb cs false (lit "*" :: ts) n = true
  <-> exists stem rest,
        stem <> [] /\ contains stem "/" = false /\ n = stem ++ rest
        /\ matchb cs false ts rest = true.
Proof.
  split.
  - induction n as [|c n IH]; intros H; [discriminate H|].
    cbn [matchb] in H. rewrite count_star in H.
    destruct (Ascii.eqb c "/") eqn:Ec; cbn in H; [discriminate H|].
    apply orb_true_iff in H as [H|H].
    + exists [c], n. repeat split; [discriminate | | exact H].
      rewrite contains_cons, Ec. reflexivity.
    + destruct (IH H) as (stem & rest & Hs & Hc & -> & Hm).
      exists (c :: stem), rest. repeat split; [discriminate | | exact Hm].
      rewrite contains_cons, Ec. exact Hc.
  - intros (stem & rest & Hs & Hc & -> & Hm).
    induction stem as [|c stem IH]; [congruence|].
    rewrite contains_cons in Hc. apply orb_false_iff in Hc as [Ec Hc].
    cbn [app matchb]. rewrite count_star, Ec. cbn [negb].
    change (2 =? 0) with false. change (2 =? 1) with false. cbv iota.
    destruct stem as [|d stem]; [cbn [app]; rewrite Hm; reflexivity|].
    rewrite IH; [apply orb_true_r | discriminate | exact Hc].
Qed.

Lemma matchb_dstar_split cs ts n :
  matchb cs false (lit "**" :: ts) n = true
  <-> exists stem rest,
        stem <> [] /\ n = stem ++ rest /\ matchb cs false ts rest = true.
Proof.
  split.
  - induction n as [|c n IH]; intros H; [discriminate H|].
    cbn [matchb] in H. rewrite count_dstar in H. cbn in H.
    apply orb_true_iff in H as [H|H].
    + exists [c], n. repeat split; [discriminate | exact H].
    + destruct (IH H) as (stem & rest & Hs & -> & Hm).
      exists (c :: stem), rest. repeat split; [discriminate | exact Hm].
  - intros (stem & rest & Hs & -> & Hm).
    induction stem as [|c stem IH]; [congruence|].
    cbn [app matchb]. rewrite count_dstar.
    change (2 =? 0) with false. change (2 =? 1) with false. cbv iota.
    destruct stem as [|d stem]; [cbn [app]; rewrite Hm; reflexivity|].
    rewrite IH; [apply orb_true_r | discriminate].
Qed.

(** X8: the usual extension pattern.  For a literal suffix [s],
    [match("*" + s, name)] is true exactly when [name] is a nonempty
    stem without ["/"] followed by [s]; [match("**" + s, name)] is true
    exactly when [name] is any nonempty stem followed by [s]. *)
Theorem star_suffix_pattern :
  forall s, forallb plain s = true ->
    forall n cache, coherent cache ->
      (answer (match_ (lit "*" ++ s) n false cache) = Some (Ret true)
       <-> exists stem,
             stem <> [] /\ contains stem "/" = false /\ n = stem ++ s)
      /\ (answer (match_ (lit "**" ++ s) n false cache) = Some (Ret true)
          <-> exists stem, stem <> [] /\ n = stem ++ s).
Proof.
  intros s Hs n cache Hc. rewrite !match_answer by exact Hc.
  rewrite (lex_star_plain _ Hs), (lex_dstar_plain _ Hs).
  assert (forall rest, matchb true false (singles s) rest = true
                       <-> rest = s) as E.
  { intros rest. rewrite (matchb_literal_exact s Hs). apply str_eqb_eq. }
  split; split.
  - intros H. injection H as H. apply matchb_star_split in H.
    destruct H as (stem & rest & H1 & H2 & -> & H4). apply E in H4.
    subst rest. exists stem. repeat split; assumption.
  - intros (stem & H1 & H2 & ->). do 2 f_equal. apply matchb_star_split.
    exists stem, s. repeat split; try assumption. apply E. reflexivity.
  - intros H. injection H as H. apply matchb_dstar_split in H.
    destruct H as (stem & rest & H1 & -> & H4). apply E in H4.
    subst rest. exists stem. split; [assumption | reflexivity].
  - intros (stem & H1 & ->). do 2 f_equal. apply matchb_dstar_split.
    exists stem, s. repeat split; try assumption. apply E. reflexivity.
Qed.

Lemma star_suffix_pattern_witness :
  answer (match_ (lit "*.py") (lit "file.py") false _PATTERN_CACHE)
  = Some (Ret true)
  /\ exists stem, stem <> [] /\ lit "a/b.py" = stem ++ lit ".py".
Proof.
  assert (coherent _PATTERN_CACHE) as Hc by (intros pattern cs ap v []).
  split.
  - apply (proj1 (star_suffix_pattern (lit ".py") eq_refl (lit "file.py")
                    _PATTERN_CACHE Hc)).
    exists (lit "file"). repeat split. discriminate.
  - apply (proj2 (star_suffix_pattern (lit ".py") eq_refl (lit "a/b.py")
                    _PATTERN_CACHE Hc)).
    reflexivity.
Defined.

(** ** Prefix acceptance, continued *)

Lemma matchb_prefix_closed cs n e :
  forall ts, matchb cs true ts (n ++ e) = true -> matchb cs true ts n = true.
Proof.
  induction n as [|c n IH]; intros ts H.
  - destruct ts; reflexivity.
  - destruct ts as [|t ts]; [discriminate H|]. cbn [app matchb] in *.
    destruct (count cs t c =? 0); [exact H|].
    destruct (count cs t c =? 1); [apply IH; exact H|].
    apply orb_true_iff in H as [H|H]; apply orb_true_iff;
      [left | right]; apply IH; exact H.
Qed.

(** X9: with prefix acceptance the accepted names are closed under
    taking prefixes: if [match(p, n + e, accept_prefix=True)] is true
    then so is [match(p, n, accept_prefix=True)], and the same for
    [imatch].  A walk that prunes on the prefix test never cuts off a
    directory that leads to an accepted path. *)
Theorem prefix_mode_is_prefix_closed :
  forall pattern n e cache, coherent cache ->
    (answer (match_ pattern (n ++ e) true cache) = Some (Ret true) ->
     answer (match_ pattern n true cache) = Some (Ret true))
    /\ (answer (imatch pattern (n ++ e) true cache) = Some (Ret true) ->
        answer (imatch pattern n true cache) = Some (Ret true)).
Proof.
  intros pattern n e cache Hc.
  rewrite !match_answer, !imatch_answer by exact Hc.
  destruct (lex pattern) as [ts| |]; split; intros H; try discriminate H;
    injection H as H; do 2 f_equal; eapply matchb_prefix_closed; exact H.
Qed.

Lemma prefix_mode_is_prefix_closed_witness :
  answer (match_ (lit "src/*.py") (lit "src/") true _PATTERN_CACHE)
  = Some (Ret true)
  /\ answer (imatch (lit "src/*.py") (lit "SR") true _PATTERN_CACHE)
     = Some (Ret true).
Proof.
  assert (coherent _PATTERN_CACHE) as Hc by (intros pattern cs ap v []).
  split.
  - apply (proj1 (prefix_mode_is_prefix_closed (lit "src/*.py") (lit "src/")
                    (lit "a.py") _PATTERN_CACHE Hc)).
    reflexivity.
  - apply (proj2 (prefix_mode_is_prefix_closed (lit "src/*.py") (lit "SR")
                    (lit "C/A.PY") _PATTERN_CACHE Hc)).
    reflexivity.
Defined.

(** ** Case *)

Lemma count_fold t c :
  wf_token t -> count true t c <> 0 -> count false t c = count true t c.
Proof.
  intros H. unfold count. destruct H.
  - rewrite !match_class. reflexivity.
  - reflexivity.
  - reflexivity.
  - reflexivity.
  - rewrite !match_literal by assumption.
    destruct (Ascii.eqb c0 c) eqn:E; [|congruence].
    apply Ascii.eqb_eq in E. subst c0. rewrite Ascii.eqb_refl. reflexivity.
Qed.

Lemma matchb_fold ap n :
  forall ts, Forall wf_token ts ->
    matchb true ap ts n = true -> matchb false ap ts n = true.
Proof.
  induction n as [|c n IH]; intros ts F H.
  - destruct ts; exact H.
  - destruct ts as [|t ts]; [exact H|].
    inversion F as [|? ? Ht Fts]; subst. cbn [matchb] in *.
    destruct (Z.eqb_spec (count true t c) 0) as [E|E]; [discriminate H|].
    rewrite (count_fold t c Ht E).
    destruct (Z.eqb_spec (count true t c) 0); [contradiction|].
    destruct (count true t c =? 1); [apply IH; assumption|].
    apply orb_true_iff in H as [H|H]; apply orb_true_iff;
      [left | right]; apply IH; assumption.
Qed.

(** X10: [imatch] accepts whatever [match] accepts, for the same
    pattern, name and prefix flag. *)
Theorem imatch_accepts_what_match_accepts :
  forall pattern n ap cache, coherent cache ->
    answer (match_ pattern n ap cache) = Some (Ret true) ->
    answer (imatch pattern n ap cache) = Some (Ret true).
Proof.
  intros pattern n ap cache Hc.
  rewrite match_answer, imatch_answer by exact Hc.
  destruct (lex pattern) as [ts| |] eqn:L; intros H; try discriminate H.
  injection H as H. do 2 f_equal.
  apply matchb_fold; [apply (lex_tokens _ _ L) | exact H].
Qed.

Lemma imatch_accepts_what_match_accepts_witness :
  answer (imatch (lit "f?o[!x]*.py") (lit "fooBar.py") false _PATTERN_CACHE)
  = Some (Ret true).
Proof.
  apply imatch_accepts_what_match_accepts.
  - intros pattern cs ap v [].
  - reflexivity.
Defined.

(** ** Lists of patterns *)

Lemma py_any_cached cs ap name ps :
  forall cache, coherent cache ->
    answer (py_any (fun p => cached_match (p, cs, ap) name) ps cache)
    = any_uncached cs ap name ps
    /\ forall r cache',
         py_any (fun p => cached_match (p, cs, ap) name) ps cache
         = Some (r, cache') ->
         coherent cache'.
Proof.
  induction ps as [|p ps IH]; intros cache Hc.
  - split; [reflexivity|]. intros r cache' H. inversion H; subst. exact Hc.
  - cbn [py_any any_uncached].
    destruct (cached_match_uncached (p, cs, ap) name cache Hc) as [A P].
    rewrite <- A.
    destruct (cached_match (p, cs, ap) name cache) as [[[b|e] cache1]|] eqn:E.
    + cbn [answer option_map fst]. specialize (P _ _ eq_refl).
      destruct b.
      * split; [reflexivity|]. intros r cache' H. inversion H; subst.
        exact P.
      * exact (IH cache1 P).
    + split; [reflexivity|]. intros r cache' H. inversion H; subst.
      exact (P _ _ eq_refl).
    + split; [reflexivity | discriminate].
Qed.

Lemma match_any_answer ps name ap cache :
  coherent cache ->
  answer (match_any ps name ap cache)
  = match ps with
    | [] => Some (Ret true)
    | _ :: _ => any_uncached true ap name ps
    end
  /\ forall r cache',
       match_any ps name ap cache = Some (r, cache') -> coherent cache'.
Proof.
  intros Hc. destruct ps as [|p ps].
  - split; [reflexivity|]. intros r cache' H. inversion H; subst. exact Hc.
  - exact (py_any_cached true ap name (p :: ps) cache Hc).
Qed.

Lemma imatch_any_answer ps name ap cache :
  coherent cache ->
  answer (imatch_any ps name ap cache)
  = match ps with
    | [] => Some (Ret true)
    | _ :: _ => any_uncached false ap name ps
    end
  /\ forall r cache',
       imatch_any ps name ap cache = Some (r, cache') -> coherent cache'.
Proof.
  intros Hc. destruct ps as [|p ps].
  - split; [reflexivity|]. intros r cache' H. inversion H; subst. exact Hc.
  - exact (py_any_cached false ap name (p :: ps) cache Hc).
Qed.

Lemma any_uncached_compiled cs ap name ps :
  (forall p, In p ps ->
     exists pm, PatternMatcher.__init__ p cs ap = Some (Ret pm)) ->
  exists b,
    any_uncached cs ap name ps = Some (Ret b)
    /\ (b = true
        <-> exists p, In p ps /\ uncached (p, cs, ap) name = Some (Ret true)).
Proof.
  induction ps as [|p ps IH]; intros H.
  - exists false. split; [reflexivity|]. split; [discriminate|].
    intros (p & [] & _).
  - destruct (H p (or_introl eq_refl)) as [pm Hp].
    destruct (IH (fun q Hq => H q (or_intror Hq))) as (b & Hb & Hiff).
    cbn [any_uncached].
    assert (uncached (p, cs, ap) name
            = Some (Ret (matchb cs ap (PatternMatcher.tokens pm) name)))
      as U.
    { unfold uncached. rewrite Hp, (call_total _ _ _ _ name Hp).
      reflexivity. }
    rewrite U. destruct (matchb cs ap (PatternMatcher.tokens pm) name) eqn:M.
    + exists true. split; [reflexivity|]. split; [|reflexivity].
      intros _. exists p. split; [left; reflexivity | exact U].
    + exists b. split; [exact Hb|]. rewrite Hiff. split.
      * intros (q & Hq & Uq). exists q. split; [right; exact Hq | exact Uq].
      * intros (q & [->|Hq] & Uq); [congruence|].
        exists q. split; assumption.
Qed.

(** X12: for patterns that all compile, [match_any] returns a boolean
    and leaves the cache coherent; the boolean is true exactly when the
    list is empty or [match] is true for one of the patterns.  The same
    holds for [imatch_any] and [imatch]. *)
Theorem match_any_is_exists :
  forall ps name ap cache, coherent cache ->
    ((forall p, In p ps ->
        exists pm, PatternMatcher.__init__ p true ap = Some (Ret pm)) ->
     exists b cache',
       match_any ps name ap cache = Some (Ret b, cache')
       /\ coherent cache'
       /\ (b = true
           <-> ps = []
               \/ exists p, In p ps
                    /\ answer (match_ p name ap cache) = Some (Ret true)))
    /\ ((forall p, In p ps ->
           exists pm, PatternMatcher.__init__ p false ap = Some (Ret pm)) ->
        exists b cache',
          imatch_any ps name ap cache = Some (Ret b, cache')
          /\ coherent cache'
          /\ (b = true
              <-> ps = []
                  \/ exists p, In p ps
                       /\ answer (imatch p name ap cache)
                          = Some (Ret true))).
Proof.
  intros ps name ap cache Hc. split; intros H.
  - destruct (match_any_answer ps name ap cache Hc) as [A P].
    destruct ps as [|p0 ps].
    + exists true, cache. repeat split; try exact Hc. left. reflexivity.
    + destruct (any_uncached_compiled true ap name _ H) as (b & Hb & Hiff).
      rewrite Hb in A.
      destruct (match_any (p0 :: ps) name ap cache) as [[r cache']|] eqn:E;
        [|discriminate A].
      cbn in A. injection A as ->. exists b, cache'.
      split; [reflexivity|]. split; [exact (P _ _ eq_refl)|].
      rewrite Hiff. split.
      * intros (q & Hq & Uq). right. exists q. split; [exact Hq|].
        rewrite match_unfold.
        rewrite (proj1 (cached_match_uncached _ name _ Hc)). exact Uq.
      * intros [G|(q & Hq & Uq)]; [discriminate G|].
        exists q. split; [exact Hq|]. rewrite match_unfold in Uq.
        rewrite (proj1 (cached_match_uncached _ name _ Hc)) in Uq. exact Uq.
  - destruct (imatch_any_answer ps name ap cache Hc) as [A P].
    destruct ps as [|p0 ps].
    + exists true, cache. repeat split; try exact Hc. left. reflexivity.
    + destruct (any_uncached_compiled false ap name _ H) as (b & Hb & Hiff).
      rewrite Hb in A.
      destruct (imatch_any (p0 :: ps) name ap cache) as [[r cache']|] eqn:E;
        [|discriminate A].
      cbn in A. injection A as ->. exists b, cache'.
      split; [reflexivity|]. split; [exact (P _ _ eq_refl)|].
      rewrite Hiff. split.
      * intros (q & Hq & Uq). right. exists q. split; [exact Hq|].
        rewrite imatch_unfold.
        rewrite (proj1 (cached_match_uncached _ name _ Hc)). exact Uq.
      * intros [G|(q & Hq & Uq)]; [discriminate G|].
        exists q. split; [exact Hq|]. rewrite imatch_unfold in Uq.
        rewrite (proj1 (cached_match_uncached _ name _ Hc)) in Uq. exact Uq.
Qed.

Lemma match_any_is_exists_witness :
  exists b cache',
    match_any [lit "*.py"; lit "*.pyc"] (lit "foo.pyc") false _PATTERN_CACHE
    = Some (Ret b, cache')
    /\ coherent cache'.
Proof.
  assert (coherent _PATTERN_CACHE) as Hc by (intros pattern cs ap v []).
  destruct (proj1 (match_any_is_exists [lit "*.py"; lit "*.pyc"]
                     (lit "foo.pyc") false _PATTERN_CACHE Hc))
    as (b & cache' & E & Hc' & _).
  - intros p [<-|[<-|[]]]; eexists; reflexivity.
  - exists b, cache'. split; [exact E | exact Hc'].
Defined.

Lemma any_uncached_first cs ap name good p rest :
  (forall q, In q good -> uncached (q, cs, ap) name = Some (Ret false)) ->
  uncached (p, cs, ap) name <> Some (Ret false) ->
  any_uncached cs ap name (good ++ p :: rest) = uncached (p, cs, ap) name.
Proof.
  intros Hg Hp. induction good as [|q good IH].
  - cbn [app any_uncached].
    destruct (uncached (p, cs, ap) name) as [[[|]|e]|]; try reflexivity.
    congruence.
  - cbn [app any_uncached]. rewrite (Hg q (or_introl eq_refl)).
    apply IH. intros q' Hq'. apply Hg. right. exact Hq'.
Qed.

(** X13: [match_any] stops at the first pattern whose [match] is not
    [False].  If the patterns before [p] all answer [False] and [p]
    does not, then [match_any] answers what [match] answers for [p]
    (true, or the exception it raises), whatever comes after [p]: a
    later invalid pattern goes unnoticed, an earlier one raises.  The
    same holds for [imatch_any]. *)
Theorem match_any_first_decides :
  forall good p rest name ap cache, coherent cache ->
    ((forall q, In q good ->
        answer (match_ q name ap cache) = Some (Ret false)) ->
     answer (match_ p name ap cache) <> Some (Ret false) ->
     answer (match_any (good ++ p :: rest) name ap cache)
     = answer (match_ p name ap cache))
    /\ ((forall q, In q good ->
           answer (imatch q name ap cache) = Some (Ret false)) ->
        answer (imatch p name ap cache) <> Some (Ret false) ->
        answer (imatch_any (good ++ p :: rest) name ap cache)
        = answer (imatch p name ap cache)).
Proof.
  intros good p rest name ap cache Hc.
  assert (forall cs q,
             answer (cached_match (q, cs, ap) name cache)
             = uncached (q, cs, ap) name) as U.
  { intros cs q. exact (proj1 (cached_match_uncached _ name _ Hc)). }
  split; intros Hg Hp.
  - rewrite (proj1 (match_any_answer _ name ap cache Hc)).
    rewrite match_unfold in Hp |- *. rewrite U in Hp |- *.
    destruct (good ++ p :: rest) as [|x xs] eqn:E;
      [destruct good; discriminate E|]. rewrite <- E.
    apply any_uncached_first; [|exact Hp].
    intros q Hq. rewrite <- U, <- match_unfold. exact (Hg q Hq).
  - rewrite (proj1 (imatch_any_answer _ name ap cache Hc)).
    rewrite imatch_unfold in Hp |- *. rewrite U in Hp |- *.
    destruct (good ++ p :: rest) as [|x xs] eqn:E;
      [destruct good; discriminate E|]. rewrite <- E.
    apply any_uncached_first; [|exact Hp].
    intros q Hq. rewrite <- U, <- imatch_unfold. exact (Hg q Hq).
Qed.

Lemma match_any_first_decides_witness :
  answer (match_any [lit "*.txt"; lit "*.py"; lit "a]"] (lit "x.py") false
            _PATTERN_CACHE)
  = answer (match_ (lit "*.py") (lit "x.py") false _PATTERN_CACHE)
  /\ answer (imatch_any [lit "*.txt"; lit "a]"; lit "*.py"] (lit "x.py")
               false _PATTERN_CACHE)
     = answer (imatch (lit "a]") (lit "x.py") false _PATTERN_CACHE).
Proof.
  assert (coherent _PATTERN_CACHE) as Hc by (intros pattern cs ap v []).
  split.
  - apply (proj1 (match_any_first_decides [lit "*.txt"] (lit "*.py")
                    [lit "a]"] (lit "x.py") false _PATTERN_CACHE Hc)).
    + intros q [<-|[]]. reflexivity.
    + discriminate.
  - apply (proj2 (match_any_first_decides [lit "*.txt"] (lit "a]")
                    [lit "*.py"] (lit "x.py") false _PATTERN_CACHE Hc)).
    + intros q [<-|[]]. reflexivity.
    + discriminate.
Defined.

(** ** The matcher factory *)

Lemma any_uncached_fold ap name ps :
  any_uncached true ap name ps = Some (Ret true) ->
  any_uncached false ap name ps = Some (Ret true).
Proof.
  induction ps as [|p ps IH]; intros H; [discriminate H|].
  cbn [any_uncached] in *. rewrite !uncached_lex in *.
  destruct (lex p) as [ts| |] eqn:L; try discriminate H.
  destruct (matchb true ap ts name) eqn:M.
  - rewrite (matchb_fold ap name ts (proj1 (lex_tokens _ _ L)) M).
    reflexivity.
  - destruct (matchb false ap ts name); [reflexivity | exact (IH H)].
Qed.

(** X14: the callable that [get_matcher] returns.  For an empty list
    it answers [True] on every name and leaves the cache alone.  And
    whatever the case-sensitive callable of a list accepts, the
    case-insensitive callable of the same list accepts as well. *)
Theorem get_matcher_case_insensitive_accepts_more :
  (forall cs ap name cache,
      get_matcher [] cs ap name cache = Some (Ret true, cache))
  /\ (forall ps ap name cache, coherent cache ->
        answer (get_matcher ps true ap name cache) = Some (Ret true) ->
        answer (get_matcher ps false ap name cache) = Some (Ret true)).
Proof.
  split; [reflexivity|].
  intros ps ap name cache Hc H. destruct ps as [|p ps]; [reflexivity|].
  cbn [get_matcher] in *.
  rewrite (proj1 (match_any_answer _ name ap cache Hc)) in H.
  rewrite (proj1 (imatch_any_answer _ name ap cache Hc)).
  apply any_uncached_fold. exact H.
Qed.

Lemma get_matcher_case_insensitive_accepts_more_witness :
  answer (get_matcher [lit "*.txt"; lit "*.py"] false false (lit "foo.py")
            _PATTERN_CACHE)
  = Some (Ret true).
Proof.
  apply (proj2 get_matcher_case_insensitive_accepts_more).
  - intros pattern cs ap v [].
  - reflexivity.
Defined.
